(** * The Tkinter calculator: its safe expression evaluator and its shell

    A shallow embedding of [model_10&11.py].  The file has three layers:

    - the host: the part of the Python runtime the program calls
      ([ast.parse], the [operator] module on [int], [bool] and [float],
      [str]).  Integers are unbounded ([Z]); floats are IEEE binary64,
      computed with the Standard Library's executable specification
      [SpecFloat] (round to nearest, ties to even).  What the C library or
      the complex type decides is a field of the class [Host]; resource
      limits of the interpreter (recursion depth, memory, the digit limit
      of integer conversions) are not modelled;
    - the program: [SafeEvaluator] ([_bin_ops], [_unary_ops], [_eval_node],
      [eval]) and [CalculatorApp]'s actions ([insert], [clear_all],
      [clear_entry], [backspace], [evaluate], [_add_history],
      [_on_history_select]) over an explicit state;
    - the properties. *)

From Stdlib Require Import ZArith List String Ascii Bool Lia.
From Stdlib Require Import Floats.SpecFloat.
From Stdlib Require Import DecimalString.
From Stdlib Require DecimalPos.
Import ListNotations.

Set Warnings "-register-all".

Local Open Scope string_scope.
Local Open Scope list_scope.
Local Open Scope Z_scope.

(* ================================================================= *)
(** * Python data *)

(** ** Exceptions *)

(** The exception classes that occur, with Python's subclass order. *)
Inductive exn_class : Type :=
| Exception
| ArithmeticError
| ZeroDivisionError
| OverflowError
| ValueError
| TypeError
| SyntaxError.

Definition exn_class_eqb (c d : exn_class) : bool :=
  match c, d with
  | Exception, Exception
  | ArithmeticError, ArithmeticError
  | ZeroDivisionError, ZeroDivisionError
  | OverflowError, OverflowError
  | ValueError, ValueError
  | TypeError, TypeError
  | SyntaxError, SyntaxError => true
  | _, _ => false
  end.

(** [issubclass c d]: an [except d] clause catches an exception of class [c]. *)
Definition issubclass (c d : exn_class) : bool :=
  match d with
  | Exception => true
  | ArithmeticError =>
      match c with
      | ArithmeticError | ZeroDivisionError | OverflowError => true
      | _ => false
      end
  | _ => exn_class_eqb c d
  end.

(** An exception object: its class and [str] of it. *)
Record exn : Type := Exn { exn_type : exn_class; exn_str : string }.

(** The result of running Python code that may raise. *)
Inductive outcome (A : Type) : Type :=
| Returns (a : A)
| Raises (e : exn).
Arguments Returns {A} a.
Arguments Raises {A} e.

Definition bind {A B : Type} (m : outcome A) (k : A -> outcome B) : outcome B :=
  match m with
  | Returns a => k a
  | Raises e => Raises e
  end.

Notation "x <- m ;; k" := (bind m (fun x => k))
  (at level 61, m at next level, right associativity).

(** [try: m except c1: h1 except c2: h2 ...]: the first clause whose class
    the exception is an instance of handles it; what a handler raises is
    not handled by the clauses after it. *)
Fixpoint handle {A : Type} (e : exn)
    (clauses : list (exn_class * (exn -> outcome A))) : outcome A :=
  match clauses with
  | (c, h) :: clauses' =>
      if issubclass (exn_type e) c then h e else handle e clauses'
  | [] => Raises e
  end.

Definition try_except {A : Type} (m : outcome A)
    (clauses : list (exn_class * (exn -> outcome A))) : outcome A :=
  match m with
  | Returns a => Returns a
  | Raises e => handle e clauses
  end.

(** ** Floats *)

Definition prec : Z := 53.
Definition emax : Z := 1024.

(** A Python [float]: an IEEE binary64 number. *)
Definition float64 : Type := spec_float.

Definition fadd : float64 -> float64 -> float64 := SFadd prec emax.
Definition fsub : float64 -> float64 -> float64 := SFsub prec emax.
Definition fmul : float64 -> float64 -> float64 := SFmul prec emax.
Definition fdiv : float64 -> float64 -> float64 := SFdiv prec emax.

Definition is_nan (x : float64) : bool :=
  match x with S754_nan => true | _ => false end.

Definition is_inf (x : float64) : bool :=
  match x with S754_infinity _ => true | _ => false end.

(** [x == 0.0]. *)
Definition is_zero (x : float64) : bool :=
  match x with S754_zero _ => true | _ => false end.

Definition signbit (x : float64) : bool :=
  match x with
  | S754_zero s | S754_infinity s | S754_finite s _ _ => s
  | S754_nan => false
  end.

(** [x < 0.0]. *)
Definition is_negative (x : float64) : bool :=
  match x with
  | S754_infinity s | S754_finite s _ _ => s
  | S754_zero _ | S754_nan => false
  end.

(** [x > 0.0]. *)
Definition is_positive (x : float64) : bool :=
  match x with
  | S754_infinity s | S754_finite s _ _ => negb s
  | S754_zero _ | S754_nan => false
  end.

(** The double nearest to an integer; an infinity when it is out of range. *)
Definition float_of_Z (z : Z) : float64 := binary_normalize prec emax z 0 false.

Definition fone : float64 := float_of_Z 1.

(** The double nearest to the rational [a / b], for [b <> 0]: the quotient
    is computed to enough bits and rounded once. *)
Definition round_quotient (a b : Z) : float64 :=
  let '(q, e, l) := SFdiv_core_binary prec emax (Z.abs a) 0 (Z.abs b) 0 in
  binary_round_aux prec emax (xorb (a <? 0) (b <? 0)) q e l.

(** A finite double is an integer / an odd integer. *)
Definition is_integer (x : float64) : bool :=
  match x with
  | S754_zero _ => true
  | S754_finite _ m e => (0 <=? e) || ((Zpos m) mod 2 ^ (- e) =? 0)
  | _ => false
  end.

Definition is_odd_integer (x : float64) : bool :=
  match x with
  | S754_finite _ m e =>
      if 0 <=? e then (e =? 0) && Z.odd (Zpos m)
      else ((Zpos m) mod 2 ^ (- e) =? 0) && Z.odd (Zpos m / 2 ^ (- e))
  | _ => false
  end.

(** C's [fmod]: the remainder of the truncated division, with the sign of
    [x].  The remainder is exact: it is brought to the exponent that
    [binary_normalize] would give it, and nothing is left to round. *)
Definition fmod (x y : float64) : float64 :=
  match x, y with
  | S754_nan, _ | _, S754_nan => S754_nan
  | S754_infinity _, _ => S754_nan
  | _, S754_zero _ => S754_nan
  | _, S754_infinity _ => x
  | S754_zero _, _ => x
  | S754_finite sx mx ex, S754_finite _ my ey =>
      let e := Z.min ex ey in
      match (Zpos mx * 2 ^ (ex - e)) mod (Zpos my * 2 ^ (ey - e)) with
      | Zpos r =>
          let (m, e') :=
            shl_align r e (fexp prec emax (Zpos (digits2_pos r) + e)) in
          S754_finite sx m e'
      | _ => S754_zero sx
      end
  end.

(** ** Abstract syntax: the expression nodes of Python's [ast] module *)

Inductive operator : Type :=
| Add | Sub | Mult | MatMult | Div | Mod | Pow
| LShift | RShift | BitOr | BitXor | BitAnd | FloorDiv.

Inductive unaryop : Type := Invert | Not | UAdd | USub.

(** The value a [Constant] node holds. *)
Inductive constant : Type :=
| CNone
| CBool (b : bool)
| CInt (n : Z)
| CFloat (x : float64)
| CComplex (re im : float64)
| CStr (s : string)
| CBytes (s : string)
| CEllipsis.

(** Positions and expression contexts are left out.  [OtherNode] stands for
    the node classes that have no constructor of their own here ([Compare],
    [Attribute], [List], [Lambda], ...): the evaluator treats every one of
    them alike. *)
Inductive expr : Type :=
| BinOp (left : expr) (op : operator) (right : expr)
| UnaryOp (op : unaryop) (operand : expr)
| Constant (value : constant)
| Name (id : string)
| Call (func : expr) (args : list expr) (keywords : list (option string * expr))
| Starred (value : expr)
| Tuple (elts : list expr)
| OtherNode (kind : string) (children : list expr).

(* ================================================================= *)
(** * The host's parser on a fragment of its input

    [ast.parse(s, mode="eval")] is Python's own parser.  [parse_fragment]
    retraces it on the inputs written with the characters below, following
    the tokenizer and the expression grammar of the language reference
    ([sum], [term], [factor], [power], [primary], [atom]); it answers [None]
    on every input it does not cover. *)

(** ** Characters *)

Definition char_in (lo hi : nat) (c : ascii) : bool :=
  let n := nat_of_ascii c in (Nat.leb lo n && Nat.leb n hi)%bool.

Definition is_digit (c : ascii) : bool := char_in 48 57 c.

Definition is_name_start (c : ascii) : bool :=
  char_in 65 90 c || char_in 97 122 c || Ascii.eqb c "_".

Definition is_name_char (c : ascii) : bool := is_name_start c || is_digit c.

Definition is_quote (c : ascii) : bool :=
  Ascii.eqb c "'" || Ascii.eqb c (ascii_of_nat 34).

Definition is_blank (c : ascii) : bool := Ascii.eqb c " " || Ascii.eqb c "009".

(** What a short string literal may hold here: printable ASCII, no backslash. *)
Definition is_plain (c : ascii) : bool := char_in 32 126 c && negb (Ascii.eqb c "\").

Fixpoint span (p : ascii -> bool) (cs : list ascii) : list ascii * list ascii :=
  match cs with
  | c :: cs' =>
      if p c then let (a, b) := span p cs' in (c :: a, b) else ([], cs)
  | [] => ([], [])
  end.

Definition starts_with (p : ascii -> bool) (cs : list ascii) : bool :=
  match cs with
  | c :: _ => p c
  | [] => false
  end.

Definition digit_value (c : ascii) : Z := Z.of_nat (nat_of_ascii c) - 48.

(** The number a run of decimal digits denotes. *)
Definition digits_to_Z (ds : list ascii) : Z :=
  fold_left (fun acc c => 10 * acc + digit_value c) ds 0.

(** ** Tokens *)

Inductive punct : Type :=
| PLUS | MINUS | STAR | SLASH | PERCENT | DOUBLESTAR | DOUBLESLASH | LPAR | RPAR.

Inductive token : Type :=
| NUMBER (c : constant)
| NAME (id : string)
| KEYWORD (c : constant)
| STRING (s : string)
| OP (p : punct).

(** What the tokenizer says of an input: it is outside the fragment, it is
    a syntax error, or it is this list of tokens. *)
Inductive lexed (A : Type) : Type :=
| Unmodelled
| LexError
| Lexed (a : A).
Arguments Unmodelled {A}.
Arguments LexError {A}.
Arguments Lexed {A} a.

(** A number, a name or a string must not run into a letter, an underscore
    or a quote: exponents, suffixes, digit separators, other bases and
    string prefixes are outside the fragment. *)
Definition clean_end (rest : list ascii) : bool :=
  match rest with
  | c :: _ => negb (is_name_start c || is_quote c)
  | [] => true
  end.

(** The value of the float literal with digits [ds], the last [k] of them
    after the point: correctly rounded. *)
Definition decimal_float (ds : list ascii) (k : nat) : float64 :=
  round_quotient (digits_to_Z ds) (10 ^ Z.of_nat k).

(** [cs] starts with a digit, or with a point that a digit follows.
    Leading zeros are allowed in a float and in a zero only. *)
Definition lex_number (cs : list ascii) : lexed (token * list ascii) :=
  let (ip, r1) := span is_digit cs in
  if starts_with (Ascii.eqb ".") r1 then
    let (fp, r3) := span is_digit (tl r1) in
    if clean_end r3
    then Lexed (NUMBER (CFloat (decimal_float (ip ++ fp) (List.length fp))), r3)
    else Unmodelled
  else if negb (clean_end r1) then Unmodelled
  else if starts_with (Ascii.eqb "0") ip && Nat.ltb 1 (List.length ip) then
    if forallb (Ascii.eqb "0") ip
    then Lexed (NUMBER (CInt 0), r1) else LexError
  else Lexed (NUMBER (CInt (digits_to_Z ip)), r1).

Definition keywords : list string :=
  ["and"; "as"; "assert"; "async"; "await"; "break"; "class"; "continue";
   "def"; "del"; "elif"; "else"; "except"; "finally"; "for"; "from";
   "global"; "if"; "import"; "in"; "is"; "lambda"; "nonlocal"; "not"; "or";
   "pass"; "raise"; "return"; "try"; "while"; "with"; "yield"].

(** The token of a word that is no keyword. *)
Definition name_token (id : string) : token :=
  if String.eqb id "True" then KEYWORD (CBool true)
  else if String.eqb id "False" then KEYWORD (CBool false)
  else if String.eqb id "None" then KEYWORD CNone
  else NAME id.

(** [cs] starts with a letter or an underscore.  A quote right after the
    word would make it a string prefix; the keywords other than the three
    constants are outside the fragment. *)
Definition lex_name (cs : list ascii) : lexed (token * list ascii) :=
  let (w, r) := span is_name_char cs in
  let id := string_of_list_ascii w in
  if starts_with is_quote r || existsb (String.eqb id) keywords then Unmodelled
  else Lexed (name_token id, r).

(** [cs] follows the opening quote [q] of a short string literal. *)
Definition lex_short_string (q : ascii) (cs : list ascii)
  : lexed (token * list ascii) :=
  let (body, r) := span (fun c => is_plain c && negb (Ascii.eqb c q)) cs in
  match r with
  | c :: r' =>
      if Ascii.eqb c q then Lexed (STRING (string_of_list_ascii body), r')
      else Unmodelled
  | [] => LexError (* the literal is not terminated *)
  end.

(** [cs] follows the opening quote [q] of a string literal. *)
Definition lex_string (q : ascii) (cs : list ascii) : lexed (token * list ascii) :=
  match cs with
  | c1 :: c2 :: _ =>
      if Ascii.eqb c1 q && Ascii.eqb c2 q then Unmodelled (* triple-quoted *)
      else lex_short_string q cs
  | _ => lex_short_string q cs
  end.

(** ** The tokenizer *)

Definition lex_punct (c : ascii) (cs : list ascii) : lexed (token * list ascii) :=
  if Ascii.eqb c "+" then Lexed (OP PLUS, cs)
  else if Ascii.eqb c "-" then Lexed (OP MINUS, cs)
  else if Ascii.eqb c "%" then Lexed (OP PERCENT, cs)
  else if Ascii.eqb c "(" then Lexed (OP LPAR, cs)
  else if Ascii.eqb c ")" then Lexed (OP RPAR, cs)
  else if Ascii.eqb c "*" then
    if starts_with (Ascii.eqb "*") cs
    then Lexed (OP DOUBLESTAR, tl cs) else Lexed (OP STAR, cs)
  else if Ascii.eqb c "/" then
    if starts_with (Ascii.eqb "/") cs
    then Lexed (OP DOUBLESLASH, tl cs) else Lexed (OP SLASH, cs)
  else Unmodelled.

(** The next token of [c :: cs], where [c] is not a blank. *)
Definition lex_token (c : ascii) (cs : list ascii) : lexed (token * list ascii) :=
  if is_digit c then lex_number (c :: cs)
  else if Ascii.eqb c "." then
    if starts_with is_digit cs then lex_number (c :: cs) else Unmodelled
  else if is_name_start c then lex_name (c :: cs)
  else if is_quote c then lex_string c cs
  else lex_punct c cs.

(** A comment runs from a hash sign to the end of the line, here the end
    of the input. *)
Definition is_comment_char (c : ascii) : bool := char_in 32 126 c || Ascii.eqb c "009".

(** Every token takes at least one character, so [length cs] is fuel enough. *)
Fixpoint lex_all (fuel : nat) (cs : list ascii) : lexed (list token) :=
  match cs with
  | [] => Lexed []
  | c :: cs' =>
      match fuel with
      | O => Unmodelled
      | S fuel' =>
          if is_blank c then lex_all fuel' cs'
          else if Ascii.eqb c "#" then
            if forallb is_comment_char cs' then Lexed [] else Unmodelled
          else
            match lex_token c cs' with
            | Lexed (t, rest) =>
                match lex_all fuel' rest with
                | Lexed ts => Lexed (t :: ts)
                | other => other
                end
            | LexError => LexError
            | Unmodelled => Unmodelled
            end
      end
  end.

(** An input that starts with a blank is outside the fragment (the host
    reports an indentation error for it). *)
Definition tokenize (s : string) : lexed (list token) :=
  let cs := list_ascii_of_string s in
  if starts_with is_blank cs then Unmodelled else lex_all (List.length cs) cs.

(** ** The expression grammar

    The rules of the reference grammar that the tokens above can reach:
<<
    sum:     sum ('+'|'-') term | term
    term:    term ('*'|'/'|'//'|'%') factor | factor
    factor:  ('+'|'-') factor | power
    power:   primary '**' factor | primary
    primary: primary '(' [argument] ')' | atom
    atom:    NAME | 'True' | 'False' | 'None' | STRING+ | NUMBER
           | '(' ')' | '(' sum ')'
    argument: sum | '*' sum | '**' sum
>>
    A left-recursive rule is a loop that carries the tree built so far. *)

Inductive nonterminal : Type :=
| Sum
| SumRest (lhs : expr)
| Term
| TermRest (lhs : expr)
| Factor
| Power
| Primary
| Trailers (func : expr)
| Atom
| Strings (acc : string).

(** What a rule says of a list of tokens: the tree of a prefix and the
    tokens that follow it, or no parse. *)
Inductive parsed (A : Type) : Type :=
| OutOfFuel
| Reject
| Accept (a : A) (rest : list token).
Arguments OutOfFuel {A}.
Arguments Reject {A}.
Arguments Accept {A} a rest.

Definition and_then {A B : Type} (p : parsed A)
    (k : A -> list token -> parsed B) : parsed B :=
  match p with
  | Accept a rest => k a rest
  | Reject => Reject
  | OutOfFuel => OutOfFuel
  end.

(** The tokens start with a closing parenthesis, which is taken. *)
Definition closing {A : Type} (a : A) (ts : list token) : parsed A :=
  match ts with
  | OP RPAR :: rest => Accept a rest
  | _ => Reject
  end.

(** One step of the grammar; [rec] parses what a rule refers to. *)
Definition parse_step (rec : nonterminal -> list token -> parsed expr)
    (nt : nonterminal) (ts : list token) : parsed expr :=
  match nt with
  | Sum => and_then (rec Term ts) (fun t => rec (SumRest t))
  | SumRest lhs =>
      match ts with
      | OP PLUS :: r =>
          and_then (rec Term r) (fun t => rec (SumRest (BinOp lhs Add t)))
      | OP MINUS :: r =>
          and_then (rec Term r) (fun t => rec (SumRest (BinOp lhs Sub t)))
      | _ => Accept lhs ts
      end
  | Term => and_then (rec Factor ts) (fun f => rec (TermRest f))
  | TermRest lhs =>
      match ts with
      | OP STAR :: r =>
          and_then (rec Factor r) (fun f => rec (TermRest (BinOp lhs Mult f)))
      | OP SLASH :: r =>
          and_then (rec Factor r) (fun f => rec (TermRest (BinOp lhs Div f)))
      | OP DOUBLESLASH :: r =>
          and_then (rec Factor r) (fun f => rec (TermRest (BinOp lhs FloorDiv f)))
      | OP PERCENT :: r =>
          and_then (rec Factor r) (fun f => rec (TermRest (BinOp lhs Mod f)))
      | _ => Accept lhs ts
      end
  | Factor =>
      match ts with
      | OP PLUS :: r =>
          and_then (rec Factor r) (fun f => Accept (UnaryOp UAdd f))
      | OP MINUS :: r =>
          and_then (rec Factor r) (fun f => Accept (UnaryOp USub f))
      | _ => rec Power ts
      end
  | Power =>
      and_then (rec Primary ts) (fun b rest =>
        match rest with
        | OP DOUBLESTAR :: r =>
            and_then (rec Factor r) (fun e => Accept (BinOp b Pow e))
        | _ => Accept b rest
        end)
  | Primary => and_then (rec Atom ts) (fun a => rec (Trailers a))
  | Trailers func =>
      match ts with
      | OP LPAR :: OP RPAR :: r => rec (Trailers (Call func [] [])) r
      | OP LPAR :: OP STAR :: r =>
          and_then (and_then (rec Sum r) closing)
            (fun a => rec (Trailers (Call func [Starred a] [])))
      | OP LPAR :: OP DOUBLESTAR :: r =>
          and_then (and_then (rec Sum r) closing)
            (fun a => rec (Trailers (Call func [] [(None, a)])))
      | OP LPAR :: r =>
          and_then (and_then (rec Sum r) closing)
            (fun a => rec (Trailers (Call func [a] [])))
      | _ => Accept func ts
      end
  | Atom =>
      match ts with
      | NUMBER c :: r => Accept (Constant c) r
      | NAME id :: r => Accept (Name id) r
      | KEYWORD c :: r => Accept (Constant c) r
      | STRING s :: r => rec (Strings s) r
      | OP LPAR :: OP RPAR :: r => Accept (Tuple []) r
      | OP LPAR :: r => and_then (rec Sum r) closing
      | _ => Reject
      end
  | Strings acc =>
      match ts with
      | STRING s :: r => rec (Strings (acc ++ s)%string) r
      | _ => Accept (Constant (CStr acc)) ts
      end
  end.

(** Every reference to a rule costs one unit of fuel. *)
Fixpoint parse (fuel : nat) (nt : nonterminal) (ts : list token) : parsed expr :=
  match fuel with
  | O => OutOfFuel
  | S n => parse_step (parse n) nt ts
  end.

(** The fuel [parse_tokens] gives [parse]: no rule calls deeper than this. *)
Definition parse_fuel (ts : list token) : nat := 8 * List.length ts + 8.

(** What the parser says of an input: a syntax error, or the expression. *)
Inductive parse_result : Type :=
| ParseError
| Parsed (body : expr).

(** The whole list of tokens must be one expression. *)
Definition parse_tokens (ts : list token) : option parse_result :=
  match parse (parse_fuel ts) Sum ts with
  | Accept e [] => Some (Parsed e)
  | Accept _ (_ :: _) => Some ParseError
  | Reject => Some ParseError
  | OutOfFuel => None
  end.

(** [ast.parse(s, mode="eval").body] on the fragment. *)
Definition parse_fragment (s : string) : option parse_result :=
  match tokenize s with
  | Lexed ts => parse_tokens ts
  | LexError => Some ParseError
  | Unmodelled => None
  end.

(* ================================================================= *)
(** * The host's numbers *)

(** What the evaluator computes with: [bool], [int], [float], and the
    [complex] a negative float raised to a fractional power becomes. *)
Inductive value : Type :=
| VBool (b : bool)
| VInt (n : Z)
| VFloat (x : float64)
| VComplex (re im : float64).

(** The arithmetic faults of [int] and [float]. *)
Inductive fault : Type :=
| IntDivisionByZero        (* int / 0 *)
| IntModuloByZero          (* int % 0 *)
| FloatDivisionByZero      (* float / 0.0 *)
| FloatModuloByZero        (* float % 0.0 *)
| ZeroToNegativePower      (* 0.0 ** -1.0 *)
| IntTooLarge              (* an int beyond the doubles, converted *)
| QuotientTooLarge         (* int / int beyond the doubles *)
| PowRange                 (* pow() reports ERANGE *)
| PowErrno.                (* pow() reports another error *)

Definition fault_class (f : fault) : exn_class :=
  match f with
  | IntDivisionByZero | IntModuloByZero | FloatDivisionByZero
  | FloatModuloByZero | ZeroToNegativePower => ZeroDivisionError
  | IntTooLarge | QuotientTooLarge | PowRange => OverflowError
  | PowErrno => ValueError
  end.

(** C's [errno] after a call of [pow]. *)
Inductive c_errno : Type := ENONE | ERANGE | EOTHER.

(** The Python runtime under the program.  [ast_parse] is
    [ast.parse(s, mode="eval").body]; it agrees with [parse_fragment] where
    that is defined and never raises [ZeroDivisionError].  The other fields
    are what the C library and the [complex] type decide: [pow] on doubles
    with the [errno] it leaves, a binary operation with a complex operand,
    the text of the interpreter's own error messages, and [repr] of a
    float and of a complex. *)
Class Host : Type := {
  ast_parse : string -> outcome expr;
  ast_parse_fragment : forall s : string,
    match parse_fragment s with
    | Some (Parsed body) => ast_parse s = Returns body
    | Some ParseError => exists msg, ast_parse s = Raises (Exn SyntaxError msg)
    | None => True
    end;
  ast_parse_raises : forall (s : string) (e : exn),
    ast_parse s = Raises e -> exn_type e <> ZeroDivisionError;
  libm_pow : float64 -> float64 -> float64 * c_errno;
  complex_binop : operator -> value -> value -> outcome value;
  fault_message : fault -> string;
  float_repr : float64 -> string;
  complex_repr : float64 -> float64 -> string
}.

Section Program.

Context {host : Host}.

Definition raise_fault {A : Type} (f : fault) : outcome A :=
  Raises (Exn (fault_class f) (fault_message f)).

(** An [int] or [float] operand; a [bool] is the int 0 or 1. *)
Inductive real : Type :=
| RInt (n : Z)
| RFloat (x : float64).

Definition as_real (v : value) : option real :=
  match v with
  | VBool b => Some (RInt (Z.b2z b))
  | VInt n => Some (RInt n)
  | VFloat x => Some (RFloat x)
  | VComplex _ _ => None
  end.

(** The operand of a float operation, as a double. *)
Definition to_double (r : real) : outcome float64 :=
  match r with
  | RFloat x => Returns x
  | RInt n =>
      let x := float_of_Z n in
      if is_inf x then raise_fault IntTooLarge else Returns x
  end.

(** ** [int] *)

Definition long_true_divide (a b : Z) : outcome value :=
  if b =? 0 then raise_fault IntDivisionByZero
  else
    let q := round_quotient a b in
    if is_inf q then raise_fault QuotientTooLarge else Returns (VFloat q).

(** The remainder of the floor division: [Z.modulo]. *)
Definition long_mod (a b : Z) : outcome value :=
  if b =? 0 then raise_fault IntModuloByZero else Returns (VInt (a mod b)).

(** ** [float] *)

Definition float_div (a b : float64) : outcome value :=
  if is_zero b then raise_fault FloatDivisionByZero
  else Returns (VFloat (fdiv a b)).

(** [fmod], then the remainder is given the sign of the divisor. *)
Definition float_rem (vx wx : float64) : outcome value :=
  if is_zero wx then raise_fault FloatModuloByZero
  else
    let m := fmod vx wx in
    if is_zero m then Returns (VFloat (S754_zero (signbit wx)))
    else if xorb (is_negative wx) (is_negative m)
    then Returns (VFloat (fadd m wx))
    else Returns (VFloat m).

(** [float.__pow__] on the doubles [iv] and [iw] of the operands [v] and
    [w]: the special cases are sorted out before the C library is asked. *)
Definition float_pow (v w : value) (iv iw : float64) : outcome value :=
  if is_zero iw then Returns (VFloat fone)
  else if is_nan iv then Returns (VFloat iv)
  else if is_nan iw then
    Returns (VFloat (if SFeqb iv fone then fone else iw))
  else if is_inf iw then
    let a := SFabs iv in
    if SFeqb a fone then Returns (VFloat fone)
    else if Bool.eqb (is_positive iw) (SFltb fone a)
    then Returns (VFloat (SFabs iw))
    else Returns (VFloat (S754_zero false))
  else if is_inf iv then
    if is_positive iw
    then Returns (VFloat (if is_odd_integer iw then iv else SFabs iv))
    else Returns (VFloat (S754_zero (is_odd_integer iw && signbit iv)))
  else if is_zero iv then
    if is_negative iw then raise_fault ZeroToNegativePower
    else Returns (VFloat (if is_odd_integer iw then iv else S754_zero false))
  else if is_negative iv && negb (is_integer iw) then complex_binop Pow v w
  else
    let negate_result := is_negative iv && is_odd_integer iw in
    let a := SFabs iv in
    if SFeqb a fone
    then Returns (VFloat (if negate_result then SFopp fone else fone))
    else
      let (ix, errno) := libm_pow a iw in
      let errno :=
        match errno with
        | ENONE => if is_inf ix then ERANGE else ENONE
        | ERANGE => if is_zero ix then ENONE else ERANGE
        | EOTHER => EOTHER
        end in
      match errno with
      | ENONE => Returns (VFloat (if negate_result then SFopp ix else ix))
      | ERANGE => raise_fault PowRange
      | EOTHER => raise_fault PowErrno
      end.

(** [int.__pow__] without a modulus: a negative exponent goes to the floats. *)
Definition long_pow (v w : value) (a b : Z) : outcome value :=
  if b <? 0 then
    iv <- to_double (RInt a) ;;
    iw <- to_double (RInt b) ;;
    float_pow v w iv iw
  else Returns (VInt (a ^ b)).

(** ** The [operator] module *)

(** A binary operation: two ints stay with [int]; an int next to a float is
    converted; a complex operand is the host's business. *)
Definition binary_op (op : operator)
    (int_op : Z -> Z -> outcome value)
    (float_op : float64 -> float64 -> outcome value)
    (v w : value) : outcome value :=
  match as_real v, as_real w with
  | Some (RInt a), Some (RInt b) => int_op a b
  | Some a, Some b =>
      x <- to_double a ;;
      y <- to_double b ;;
      float_op x y
  | _, _ => complex_binop op v w
  end.

Definition operator_add : value -> value -> outcome value :=
  binary_op Add (fun a b => Returns (VInt (a + b)))
                (fun x y => Returns (VFloat (fadd x y))).

Definition operator_sub : value -> value -> outcome value :=
  binary_op Sub (fun a b => Returns (VInt (a - b)))
                (fun x y => Returns (VFloat (fsub x y))).

Definition operator_mul : value -> value -> outcome value :=
  binary_op Mult (fun a b => Returns (VInt (a * b)))
                 (fun x y => Returns (VFloat (fmul x y))).

Definition operator_truediv : value -> value -> outcome value :=
  binary_op Div long_true_divide float_div.

Definition operator_mod : value -> value -> outcome value :=
  binary_op Mod long_mod float_rem.

Definition operator_pow (v w : value) : outcome value :=
  binary_op Pow (long_pow v w) (float_pow v w) v w.

Definition operator_pos (v : value) : value :=
  match v with
  | VBool b => VInt (Z.b2z b)
  | other => other
  end.

Definition operator_neg (v : value) : value :=
  match v with
  | VBool b => VInt (- Z.b2z b)
  | VInt n => VInt (- n)
  | VFloat x => VFloat (SFopp x)
  | VComplex re im => VComplex (SFopp re) (SFopp im)
  end.

(** [str] of a number. *)
Definition str (v : value) : string :=
  match v with
  | VBool true => "True"
  | VBool false => "False"
  | VInt n => NilZero.string_of_int (Z.to_int n)
  | VFloat x => float_repr x
  | VComplex re im => complex_repr re im
  end.

(* ================================================================= *)
(** * SafeEvaluator *)

(** The table of binary operators: a dictionary from operator classes to
    functions of [operator]. *)
Definition _bin_ops (op : operator) : option (value -> value -> outcome value) :=
  match op with
  | Add => Some operator_add
  | Sub => Some operator_sub
  | Mult => Some operator_mul
  | Div => Some operator_truediv
  | Mod => Some operator_mod
  | Pow => Some operator_pow
  | _ => None
  end.

Definition _unary_ops (op : unaryop) : option (value -> value) :=
  match op with
  | UAdd => Some operator_pos
  | USub => Some operator_neg
  | _ => None
  end.

Definition unsupported {A : Type} : outcome A :=
  Raises (Exn ValueError "Unsupported expression").

Fixpoint _eval_node (node : expr) : outcome value :=
  match node with
  | BinOp lhs op rhs =>
      match _bin_ops op with
      | Some f =>
          l <- _eval_node lhs ;;
          r <- _eval_node rhs ;;
          f l r
      | None => unsupported
      end
  | UnaryOp op operand =>
      match _unary_ops op with
      | Some f =>
          o <- _eval_node operand ;;
          Returns (f o)
      | None => unsupported
      end
  | Constant (CBool b) => Returns (VBool b)
  | Constant (CInt n) => Returns (VInt n)
  | Constant (CFloat x) => Returns (VFloat x)
  | _ => unsupported
  end.

Definition eval (expr : string) : outcome value :=
  try_except
    (node <- ast_parse expr ;;
     _eval_node node)
    [(ZeroDivisionError,
      fun _ => Raises (Exn ZeroDivisionError "Division by zero is not allowed."));
     (Exception,
      fun _ => Raises (Exn ValueError "Invalid expression"))].

(* ================================================================= *)
(** * CalculatorApp *)

(** The state of the application: the text of the display ([self.var]),
    the history, the rows of the list box that shows it, and the error
    dialogs shown so far, each with its title and message. *)
Record app : Type := App {
  var : string;
  history : list string;
  history_list : list string;
  dialogs : list (string * string)
}.

Definition initial : app := App "" [] [] [].

Definition set_var (s : string) (st : app) : app :=
  App s (history st) (history_list st) (dialogs st).

Definition showerror (title message : string) (st : app) : app :=
  App (var st) (history st) (history_list st) (dialogs st ++ [(title, message)]).

(** ** Strings *)

(** The characters [str.strip] removes, among the code points below 256. *)
Definition is_space (c : ascii) : bool :=
  let n := nat_of_ascii c in
  (Nat.leb 9 n && Nat.leb n 13) || (Nat.leb 28 n && Nat.leb n 32)
  || Nat.eqb n 133 || Nat.eqb n 160.

Fixpoint lstrip (cs : list ascii) : list ascii :=
  match cs with
  | c :: cs' => if is_space c then lstrip cs' else cs
  | [] => []
  end.

Definition strip (s : string) : string :=
  string_of_list_ascii (rev (lstrip (rev (lstrip (list_ascii_of_string s))))).

(** [s[:-1]]. *)
Definition drop_last (s : string) : string :=
  string_of_list_ascii (removelast (list_ascii_of_string s)).

(** [s.split("=")[0]]: what stands before the first equals sign. *)
Fixpoint before_equals (s : string) : string :=
  match s with
  | String c s' => if Ascii.eqb c "=" then "" else String c (before_equals s')
  | EmptyString => ""
  end.

(** ** Actions *)

Definition insert (s : string) (st : app) : app := set_var (var st ++ s) st.

Definition clear_all (st : app) : app := set_var "" st.

Definition clear_entry (st : app) : app := set_var "" st.

Definition backspace (st : app) : app := set_var (drop_last (var st)) st.

Definition _add_history (item : string) (st : app) : app :=
  let h := history st ++ [item] in
  let l := history_list st ++ [item] in
  if Nat.ltb 50 (List.length h)
  then App (var st) (tl h) (tl l) (dialogs st)
  else App (var st) h l (dialogs st).

Definition evaluate (st : app) : app :=
  let expr := strip (var st) in
  if String.eqb expr "" then st
  else
    match eval expr with
    | Returns result =>
        set_var (str result)
          (_add_history (expr ++ " = " ++ str result) st)
    | Raises e =>
        if issubclass (exn_type e) ZeroDivisionError
        then showerror "Math Error" (exn_str e) st
        else if issubclass (exn_type e) ValueError
        then showerror "Input Error" (exn_str e) st
        else showerror "Error" "Something went wrong." st
    end.

(** [curselection] is the list of the selected rows.  An index past the
    history raises [IndexError] out of the callback: nothing changes. *)
Definition _on_history_select (curselection : list nat) (st : app) : app :=
  match curselection with
  | [] => st
  | idx :: _ =>
      match nth_error (history st) idx with
      | Some item => set_var (strip (before_equals item)) st
      | None => st
      end
  end.

Definition _key_insert (char : string) (st : app) : app := insert char st.

(** What can happen to the application: a callback runs, or the user edits
    the text of the entry field. *)
Inductive action : Type :=
| Insert (s : string)
| ClearAll
| ClearEntry
| Backspace
| Evaluate
| HistorySelect (curselection : list nat)
| KeyInsert (char : string)
| Edit (text : string).

Definition step (st : app) (a : action) : app :=
  match a with
  | Insert s => insert s st
  | ClearAll => clear_all st
  | ClearEntry => clear_entry st
  | Backspace => backspace st
  | Evaluate => evaluate st
  | HistorySelect sel => _on_history_select sel st
  | KeyInsert c => _key_insert c st
  | Edit text => set_var text st
  end.

Definition run (actions : list action) (st : app) : app :=
  fold_left step actions st.

End Program.

(* ================================================================= *)
(** * CalculatorApp: the widgets and the keys *)

Section Widgets.

Context {host : Host}.

(** A button of the grid: its label, its cell, the columns it spans, and
    what a click does. *)
Record button : Type := Button {
  text : string;
  row : nat;
  column : nat;
  columnspan : nat;
  command : app -> app
}.

(** The click runs [cmd], or inserts the label when there is none. *)
Definition _make_button (text : string) (row col colspan : nat)
    (cmd : option (app -> app)) : button :=
  let on_click (st : app) : app :=
    match cmd with
    | Some c => c st
    | None => insert text st
    end in
  Button text row col colspan on_click.

(** The label of the backspace button, the character U+232B, as the three
    bytes of its UTF-8 form; the button has a command, so the label is
    never inserted. *)
Definition erase_to_the_left : string :=
  string_of_list_ascii (map ascii_of_nat [226; 140; 171]%nat).

(** The rows and the columns [_build_widgets] configures. *)
Definition grid_rows : nat := 6.
Definition grid_columns : nat := 4.

(** The buttons [_build_widgets] makes, in the order of the calls. *)
Definition _build_widgets : list button :=
  let btn text row col cmd := _make_button text row col 1 cmd in
  [ btn "AC" 0 0 (Some clear_all);
    btn "C" 0 1 (Some clear_entry);
    btn erase_to_the_left 0 2 (Some backspace);
    btn "/" 0 3 None;
    btn "7" 1 0 None;
    btn "8" 1 1 None;
    btn "9" 1 2 None;
    btn "*" 1 3 None;
    btn "4" 2 0 None;
    btn "5" 2 1 None;
    btn "6" 2 2 None;
    btn "-" 2 3 None;
    btn "1" 3 0 None;
    btn "2" 3 1 None;
    btn "3" 3 2 None;
    btn "+" 3 3 None;
    btn "(" 4 0 None;
    btn "0" 4 1 None;
    btn ")" 4 2 None;
    btn "%" 4 3 None;
    btn "." 5 0 None;
    btn "**" 5 1 None;
    _make_button "=" 5 2 2 (Some evaluate) ]%nat.

(** A key event, with the text the key stands for. *)
Record event : Type := Event { char : string }.

Definition bindings : Type := list (string * (event -> app -> app)).

(** [self.bind(sequence, func)]: the sequence is bound to [func], whatever
    it was bound to before.  ([bind] is taken by the outcomes.) *)
Definition bind_sequence (sequence : string) (func : event -> app -> app)
    (bound : bindings) : bindings :=
  (sequence, func)
  :: filter (fun b => negb (String.eqb (fst b) sequence)) bound.

Definition key_characters : string := "0123456789.+-*/()%".

Definition key_press (ch : ascii) : string := "<KeyPress-" ++ String ch ">".

Definition _bind_keys : bindings :=
  let bound :=
    fold_left
      (fun bound ch =>
         bind_sequence (key_press ch) (fun e => _key_insert (char e)) bound)
      (list_ascii_of_string key_characters) [] in
  let bound := bind_sequence "<Return>" (fun _ => evaluate) bound in
  let bound := bind_sequence "<KP_Enter>" (fun _ => evaluate) bound in
  let bound := bind_sequence "<BackSpace>" (fun _ => backspace) bound in
  bind_sequence "<Escape>" (fun _ => clear_all) bound.

(** The callback a sequence is bound to. *)
Definition callback (sequence : string) : option (event -> app -> app) :=
  option_map snd (find (fun b => String.eqb (fst b) sequence) _bind_keys).

End Widgets.

(** The cells a button covers. *)
Definition cells (b : button) : list (nat * nat) :=
  map (fun j => (row b, column b + j)%nat) (seq 0 (columnspan b)).

(** The button of the grid with the label [label]. *)
Definition button_labelled {host : Host} (label : string) : option button :=
  find (fun b => String.eqb (text b) label) _build_widgets.

(** A click on each of the buttons [bs], in order. *)
Definition clicks (bs : list button) (st : app) : app :=
  fold_left (fun st b => command b st) bs st.

(* ================================================================= *)
(** * The vocabulary of the properties *)

(** The two kinds of error [eval] raises. *)
Definition InvalidExpression : exn := Exn ValueError "Invalid expression".

Definition DivisionByZero : exn :=
  Exn ZeroDivisionError "Division by zero is not allowed.".

(** The nodes the evaluator is meant to compute: a binary operation with
    one of [+ - * / % **], a unary [+] or [-], a numeric literal. *)
Definition whitelisted (n : expr) : bool :=
  match n with
  | BinOp _ (Add | Sub | Mult | Div | Mod | Pow) _ => true
  | UnaryOp (UAdd | USub) _ => true
  | Constant (CBool _ | CInt _ | CFloat _) => true
  | _ => false
  end.

(** [child c n]: [c] is a field of the node [n]. *)
Inductive child : expr -> expr -> Prop :=
| child_left l op r : child l (BinOp l op r)
| child_right l op r : child r (BinOp l op r)
| child_operand op o : child o (UnaryOp op o)
| child_func f args kws : child f (Call f args kws)
| child_arg f args kws a : In a args -> child a (Call f args kws)
| child_keyword f args kws k a : In (k, a) kws -> child a (Call f args kws)
| child_starred v : child v (Starred v)
| child_elt elts a : In a elts -> child a (Tuple elts)
| child_other kind cs a : In a cs -> child a (OtherNode kind cs).

(** [occurs_in m n]: the node [m] is [n] or stands somewhere below it. *)
Inductive occurs_in (m : expr) : expr -> Prop :=
| occurs_here : occurs_in m m
| occurs_below c n : child c n -> occurs_in m c -> occurs_in m n.

(** No [/], [%] or [**] among the operations the evaluator computes. *)
Fixpoint division_free (n : expr) : bool :=
  match n with
  | BinOp l op r =>
      match op with
      | Div | Mod | Pow => false
      | _ => division_free l && division_free r
      end
  | UnaryOp _ o => division_free o
  | _ => true
  end.

(** [a] is the text of a number literal of value [c]: a token on its own. *)
Definition number_literal (a : string) (c : constant) : Prop :=
  exists (ch : ascii) (cs : list ascii),
    list_ascii_of_string a = ch :: cs /\ lex_token ch cs = Lexed (NUMBER c, []).

(** What may follow the text of a number: no digit, no point, no letter,
    no underscore and no quote. *)
Definition ends_number (x : list ascii) : bool :=
  negb (starts_with is_digit x) && negb (starts_with (Ascii.eqb ".") x)
  && clean_end x.

(** The operation [vl / vr] or [vl % vr] divides by zero: [vr] is an int or
    float zero and [vl] an int or a float; next to a float zero an int
    [vl] must be in the range of the doubles (its conversion comes first). *)
Definition divides_by_zero (vl vr : value) : bool :=
  match vl, vr with
  | (VBool _ | VInt _), (VBool false | VInt 0) => true
  | VFloat _, (VBool false | VInt 0) => true
  | VBool _, VFloat y => is_zero y
  | VInt n, VFloat y => negb (is_inf (float_of_Z n)) && is_zero y
  | VFloat _, VFloat y => is_zero y
  | _, _ => false
  end.

(** The depth of open parentheses after the tokens [ts], from depth [d];
    [None] when a parenthesis closes nothing. *)
Fixpoint depth_after (d : nat) (ts : list token) : option nat :=
  match ts with
  | [] => Some d
  | OP LPAR :: r => depth_after (S d) r
  | OP RPAR :: r =>
      match d with
      | O => None
      | S d' => depth_after d' r
      end
  | _ :: r => depth_after d r
  end.

(** The parenthesis tokens match. *)
Definition balanced (ts : list token) : bool :=
  match depth_after 0 ts with
  | Some O => true
  | _ => false
  end.

Definition is_number (t : token) : bool :=
  match t with
  | NUMBER _ => true
  | _ => false
  end.

(** Two number tokens stand side by side, as in ["1.2.3"]: a number with
    two points is read as two numbers. *)
Fixpoint adjacent_numbers (ts : list token) : bool :=
  match ts with
  | t :: r =>
      (is_number t && match r with t' :: _ => is_number t' | [] => false end)
      || adjacent_numbers r
  | [] => false
  end.

(** The parentheses of the text [cs], counted as characters. *)
Fixpoint char_depth (d : nat) (cs : list ascii) : option nat :=
  match cs with
  | [] => Some d
  | c :: r =>
      if Ascii.eqb c "(" then char_depth (S d) r
      else if Ascii.eqb c ")" then
        match d with
        | O => None
        | S d' => char_depth d' r
        end
      else char_depth d r
  end.

Definition balanced_text (s : string) : bool :=
  match char_depth 0 (list_ascii_of_string s) with
  | Some O => true
  | _ => false
  end.

(** ** Precedence, as a printer

    The rule of the grammar that yields a node: 0 for a sum, 1 for a
    term, 2 for a factor or a power, 3 for an atom. *)
Definition level_of (e : expr) : nat :=
  match e with
  | BinOp _ (Add | Sub) _ => 0
  | BinOp _ (Mult | Div | Mod) _ => 1
  | BinOp _ Pow _ | UnaryOp _ _ => 2
  | _ => 3
  end.

(** The table of the binary operators: the token, the level the left
    operand must have and the level the right operand must have.  [+ -]
    and [* / %] associate to the left; [**] associates to the right, takes
    a primary as its base and a factor, so a signed one too, as its
    exponent. *)
Definition layout (op : operator) : option (punct * nat * nat) :=
  match op with
  | Add => Some (PLUS, 0, 1)%nat
  | Sub => Some (MINUS, 0, 1)%nat
  | Mult => Some (STAR, 1, 2)%nat
  | Div => Some (SLASH, 1, 2)%nat
  | Mod => Some (PERCENT, 1, 2)%nat
  | Pow => Some (DOUBLESTAR, 3, 2)%nat
  | _ => None
  end.

Definition sign_token (op : unaryop) : option punct :=
  match op with
  | UAdd => Some PLUS
  | USub => Some MINUS
  | _ => None
  end.

(** The tokens [inner] of [e], in parentheses where level [k] is asked for
    and [e] is of a lower one. *)
Definition at_level (k : nat) (e : expr) (inner : list token) : list token :=
  if Nat.ltb (level_of e) k then OP LPAR :: inner ++ [OP RPAR] else inner.

(** The tokens of an arithmetic expression, with the parentheses the table
    requires and no others. *)
Fixpoint show (e : expr) : list token :=
  match e with
  | BinOp l op r =>
      match layout op with
      | Some (tok, kl, kr) =>
          at_level kl l (show l) ++ OP tok :: at_level kr r (show r)
      | None => []
      end
  | UnaryOp op o =>
      match sign_token op with
      | Some tok => OP tok :: at_level 2 o (show o)
      | None => []
      end
  | Constant (CBool b) => [KEYWORD (CBool b)]
  | Constant c => [NUMBER c]
  | _ => []
  end.

(** The trees of the whitelist: the six binary operators, the two signs,
    and the number literals. *)
Fixpoint arithmetic (e : expr) : bool :=
  match e with
  | BinOp l op r =>
      match layout op with
      | Some _ => arithmetic l && arithmetic r
      | None => false
      end
  | UnaryOp op o =>
      match sign_token op with
      | Some _ => arithmetic o
      | None => false
      end
  | Constant (CBool _ | CInt _ | CFloat _) => true
  | _ => false
  end.

(** The sign of a number: set for a negative int and for a float whose sign
    bit is set. *)
Definition negative (v : value) : bool :=
  match v with
  | VBool _ => false
  | VInt n => n <? 0
  | VFloat x => signbit x
  | VComplex _ _ => false
  end.

Definition is_zero_value (v : value) : bool :=
  match v with
  | VBool b => negb b
  | VInt n => n =? 0
  | VFloat x => is_zero x
  | VComplex _ _ => false
  end.

Definition is_nan_value (v : value) : bool :=
  match v with
  | VFloat x => is_nan x
  | _ => false
  end.

(** [v] is a zero, a NaN, or has the sign of [w]. *)
Definition takes_sign_of (v w : value) : Prop :=
  is_zero_value v = true \/ is_nan_value v = true \/ negative v = negative w.

(** An int stands next to a float and is beyond the range of the doubles. *)
Definition conversion_overflows (v w : value) : bool :=
  match as_real v, as_real w with
  | Some (RInt m), Some (RFloat _) => is_inf (float_of_Z m)
  | Some (RFloat _), Some (RInt n) => is_inf (float_of_Z n)
  | _, _ => false
  end.

(** The value of a number literal. *)
Definition literal_value (c : constant) : option value :=
  match c with
  | CInt n => Some (VInt n)
  | CFloat x => Some (VFloat x)
  | _ => None
  end.

(** The floating-point quotient of two numbers, the second of which is not
    zero: of two ints, the double nearest to their quotient; with a float
    among them, the IEEE quotient of the two as doubles.  There is none
    when an int next to a float, or the quotient of two ints, is beyond
    the range of the doubles. *)
Definition true_quotient (v w : value) : option float64 :=
  match as_real v, as_real w with
  | Some (RInt m), Some (RInt n) =>
      let q := round_quotient m n in
      if is_inf q then None else Some q
  | Some a, Some b =>
      if conversion_overflows v w then None
      else
        let double (r : real) :=
          match r with RInt k => float_of_Z k | RFloat x => x end in
        Some (fdiv (double a) (double b))
  | _, _ => None
  end.

(** The digit 1 and 309 zeros: the int [10 ^ 309]. *)
Definition huge_literal : string :=
  string_of_list_ascii ("1"%char :: repeat "0"%char 309).

(** [isinstance(v, int)]: an int or a bool. *)
Definition is_int (v : value) : bool :=
  match v with
  | VBool _ | VInt _ => true
  | _ => false
  end.

(** The int an expression of ints and bools denotes: sums, differences,
    products, remainders by a divisor that is not zero, powers with an
    exponent that is not negative, and signs.  A quotient is a float and
    denotes none. *)
Fixpoint int_value (e : expr) : option Z :=
  match e with
  | Constant (CInt n) => Some n
  | Constant (CBool b) => Some (Z.b2z b)
  | UnaryOp UAdd o => int_value o
  | UnaryOp USub o => option_map Z.opp (int_value o)
  | BinOp l op r =>
      match int_value l, int_value r with
      | Some a, Some b =>
          match op with
          | Add => Some (a + b)
          | Sub => Some (a - b)
          | Mult => Some (a * b)
          | Mod => if b =? 0 then None else Some (a mod b)
          | Pow => if b <? 0 then None else Some (a ^ b)
          | _ => None
          end
      | _, _ => None
      end
  | _ => None
  end.

(** No equals sign in [s]. *)
Fixpoint equals_free (s : string) : bool :=
  match s with
  | String c s' => negb (Ascii.eqb c "=") && equals_free s'
  | EmptyString => true
  end.

(** The two dialogs of [evaluate] that name an error of [eval]. *)
Definition math_error : string * string :=
  ("Math Error", "Division by zero is not allowed.").

Definition input_error : string * string :=
  ("Input Error", "Invalid expression").

(** The last [n] elements of a list. *)
Definition last_n {A : Type} (n : nat) (l : list A) : list A :=
  skipn (List.length l - n) l.

(** The user puts each text into the entry field and evaluates it. *)
Definition evaluations (texts : list string) : list action :=
  flat_map (fun t => [Edit t; Evaluate]) texts.

Section Vocabulary.

Context {host : Host}.

(** Evaluating the text [text] succeeds and records [entry]. *)
Definition successful (text entry : string) : Prop :=
  strip text <> ""
  /\ exists v : value,
       eval (strip text) = Returns v
       /\ entry = (strip text ++ " = " ++ str v)%string.

End Vocabulary.

(** The texts ["1"], ["2"], ..., ["51"], and the history entry of each. *)
Definition numeral (n : nat) : string := NilZero.string_of_uint (Nat.to_uint n).

Definition fifty_one_texts : list string := map numeral (seq 1 51).

Definition fifty_one_entries : list string :=
  map (fun n => (numeral n ++ " = " ++ numeral n)%string) (seq 1 51).

(* ================================================================= *)
(** * A host to run statements on *)

(** A host: it parses the fragment and nothing else, and its C library
    knows no power.  It witnesses that the class is inhabited and serves
    where a statement needs some host to be run on. *)
Definition fragment_parse (s : string) : outcome expr :=
  match parse_fragment s with
  | Some (Parsed body) => Returns body
  | _ => Raises (Exn SyntaxError "invalid syntax")
  end.

Lemma fragment_parse_fragment (s : string) :
  match parse_fragment s with
  | Some (Parsed body) => fragment_parse s = Returns body
  | Some ParseError => exists msg, fragment_parse s = Raises (Exn SyntaxError msg)
  | None => True
  end.
Proof.
  unfold fragment_parse.
  destruct (parse_fragment s) as [[|body]|]; eauto.
Qed.

Lemma fragment_parse_raises (s : string) (e : exn) :
  fragment_parse s = Raises e -> exn_type e <> ZeroDivisionError.
Proof.
  unfold fragment_parse.
  destruct (parse_fragment s) as [[|body]|]; intros E; inversion E; discriminate.
Qed.

Definition fragment_host : Host := {|
  ast_parse := fragment_parse;
  ast_parse_fragment := fragment_parse_fragment;
  ast_parse_raises := fragment_parse_raises;
  libm_pow := fun _ _ => (S754_nan, EOTHER);
  complex_binop := fun _ _ _ => Raises (Exn TypeError "complex");
  fault_message := fun _ => "";
  float_repr := fun _ => "";
  complex_repr := fun _ _ => ""
|}.

(* ================================================================= *)
(** * Properties of the evaluator *)

Section EvaluatorFacts.

Context {host : Host}.

Lemma issubclass_zero_division (c : exn_class) :
  issubclass c ZeroDivisionError = true <-> c = ZeroDivisionError.
Proof. destruct c; simpl; split; intros E; congruence. Qed.

(** [eval] on a parsed input: the value, or one of the two errors
    according to the class of what [_eval_node] raised. *)
Lemma eval_parsed (s : string) (body : expr) :
  ast_parse s = Returns body ->
  eval s =
    match _eval_node body with
    | Returns v => Returns v
    | Raises e =>
        if issubclass (exn_type e) ZeroDivisionError
        then Raises DivisionByZero else Raises InvalidExpression
    end.
Proof.
  intros E. unfold eval. rewrite E. simpl.
  destruct (_eval_node body) as [v|e]; simpl; [reflexivity|].
  destruct (issubclass (exn_type e) ZeroDivisionError); reflexivity.
Qed.

Lemma eval_unparsed (s : string) (e : exn) :
  ast_parse s = Raises e -> eval s = Raises InvalidExpression.
Proof.
  intros E. unfold eval. rewrite E. simpl.
  pose proof (ast_parse_raises s e E) as N.
  destruct (exn_type e); simpl; try reflexivity. congruence.
Qed.

(** The public contract: a value or one of two errors. *)
Lemma eval_cases (s : string) :
  (exists v, eval s = Returns v)
  \/ eval s = Raises DivisionByZero
  \/ eval s = Raises InvalidExpression.
Proof.
  destruct (ast_parse s) as [body|e] eqn:E.
  - rewrite (eval_parsed s body E).
    destruct (_eval_node body) as [v|e']; [left; eauto|].
    destruct (issubclass (exn_type e') ZeroDivisionError); auto.
  - right. right. exact (eval_unparsed s e E).
Qed.

Lemma reject_not_whitelisted (n : expr) :
  whitelisted n = false -> _eval_node n = unsupported.
Proof.
  destruct n as [l op r|op o|c| | | | |]; simpl; try reflexivity.
  - destruct op; simpl; congruence.
  - destruct op; simpl; congruence.
  - destruct c; simpl; congruence.
Qed.

(** A rejected node anywhere in the tree: evaluation raises. *)
Lemma raises_below (m n : expr) :
  occurs_in m n -> whitelisted m = false -> exists e, _eval_node n = Raises e.
Proof.
  intros O W. induction O as [|c n C O IH].
  - rewrite (reject_not_whitelisted m W). unfold unsupported. eauto.
  - destruct IH as [e IH].
    destruct (whitelisted n) eqn:Wn;
      [|rewrite (reject_not_whitelisted n Wn); unfold unsupported; eauto].
    inversion C; subst; simpl in Wn; try discriminate.
    + simpl. destruct (_bin_ops op); [|unfold unsupported; eauto].
      rewrite IH. simpl. eauto.
    + simpl. destruct (_bin_ops op); [|unfold unsupported; eauto].
      destruct (_eval_node l); simpl; [rewrite IH; simpl|]; eauto.
    + simpl. destruct (_unary_ops op); [|unfold unsupported; eauto].
      rewrite IH. simpl. eauto.
Qed.

Lemma to_double_class (r : real) (e : exn) :
  to_double r = Raises e -> exn_type e = OverflowError.
Proof.
  destruct r as [n|x]; simpl; [|discriminate].
  destruct (is_inf (float_of_Z n)); [|discriminate].
  unfold raise_fault. intros E. inversion E. reflexivity.
Qed.

(** Addition, subtraction and multiplication of ints and floats: an int, a
    float, or an overflow of the conversion. *)
Lemma plain_binary_op (op : operator) (fi : Z -> Z -> Z)
    (ff : float64 -> float64 -> float64) (v w : value) :
  as_real v <> None -> as_real w <> None ->
  match binary_op op (fun a b => Returns (VInt (fi a b)))
          (fun x y => Returns (VFloat (ff x y))) v w with
  | Returns u => as_real u <> None
  | Raises e => exn_type e = OverflowError
  end.
Proof.
  intros Hv Hw. unfold binary_op.
  destruct (as_real v) as [a|]; [|congruence].
  destruct (as_real w) as [b|]; [|congruence].
  destruct a as [a|x], b as [b|y]; simpl; try discriminate.
  - destruct (is_inf (float_of_Z a)); simpl; [reflexivity|discriminate].
  - destruct (is_inf (float_of_Z b)); simpl; [reflexivity|discriminate].
Qed.

Lemma eval_division_free (n : expr) :
  division_free n = true ->
  match _eval_node n with
  | Returns v => as_real v <> None
  | Raises e => exn_type e <> ZeroDivisionError
  end.
Proof.
  induction n as [l IHl op r IHr|op o IHo|c| | | | |]; simpl; intros D;
    try discriminate.
  - destruct op; try discriminate; simpl; try discriminate;
      apply andb_prop in D; destruct D as [Dl Dr];
      specialize (IHl Dl); specialize (IHr Dr);
      (destruct (_eval_node l) as [vl|el]; simpl; [|exact IHl]);
      (destruct (_eval_node r) as [vr|er]; simpl; [|exact IHr]).
    + pose proof (plain_binary_op Add Z.add fadd vl vr IHl IHr) as P.
      unfold operator_add. destruct (binary_op _ _ _ vl vr); [exact P|].
      rewrite P. discriminate.
    + pose proof (plain_binary_op Sub Z.sub fsub vl vr IHl IHr) as P.
      unfold operator_sub. destruct (binary_op _ _ _ vl vr); [exact P|].
      rewrite P. discriminate.
    + pose proof (plain_binary_op Mult Z.mul fmul vl vr IHl IHr) as P.
      unfold operator_mul. destruct (binary_op _ _ _ vl vr); [exact P|].
      rewrite P. discriminate.
  - specialize (IHo D). destruct op; simpl; try discriminate;
      (destruct (_eval_node o) as [v|e]; simpl; [|exact IHo]);
      destruct v; simpl in *; congruence.
  - destruct c; simpl; discriminate.
Qed.

End EvaluatorFacts.

(** C1 (as amended).  An input whose tree holds a node outside the
    whitelist (an identifier, a call, a string literal, ...) never
    evaluates to a value: [eval] raises InvalidExpression, or
    DivisionByZero when an operation computed before the node is reached
    divides by zero; without [/], [%] and [**] among the computed
    operations it is InvalidExpression.  Every node outside the whitelist
    is rejected when the evaluator reaches it. *)
Theorem eval_rejects_unsupported_nodes
    {host : Host} (s : string) (body m : expr) :
  ast_parse s = Returns body ->
  occurs_in m body ->
  whitelisted m = false ->
  (eval s = Raises InvalidExpression \/ eval s = Raises DivisionByZero)
  /\ (division_free body = true -> eval s = Raises InvalidExpression)
  /\ (forall n : expr, whitelisted n = false ->
        _eval_node n = Raises (Exn ValueError "Unsupported expression")).
Proof.
  intros P O W.
  destruct (raises_below m body O W) as [e E].
  rewrite (eval_parsed s body P), E.
  split; [|split].
  - destruct (issubclass (exn_type e) ZeroDivisionError); auto.
  - intros D. pose proof (eval_division_free body D) as F.
    rewrite E in F.
    destruct (issubclass (exn_type e) ZeroDivisionError) eqn:Z;
      [|reflexivity].
    apply issubclass_zero_division in Z. contradiction.
  - exact reject_not_whitelisted.
Qed.

Lemma eval_rejects_unsupported_nodes_witness :
  (@eval fragment_host "x+1" = Raises InvalidExpression
   \/ @eval fragment_host "x+1" = Raises DivisionByZero)
  /\ (division_free (BinOp (Name "x") Add (Constant (CInt 1))) = true ->
      @eval fragment_host "x+1" = Raises InvalidExpression)
  /\ (forall n : expr, whitelisted n = false ->
        @_eval_node fragment_host n
        = Raises (Exn ValueError "Unsupported expression")).
Proof.
  apply (@eval_rejects_unsupported_nodes fragment_host "x+1"
           (BinOp (Name "x") Add (Constant (CInt 1))) (Name "x")).
  - reflexivity.
  - apply occurs_below with (c := Name "x"); [apply child_left|apply occurs_here].
  - reflexivity.
Defined.

(** C1 as stated fails: ["1/0+x"] holds an identifier, yet the division by
    zero on its left is computed first and [eval] raises DivisionByZero. *)
Lemma identifier_after_zero_division :
  ~ (forall (host : Host) (s : string) (body : expr) (id : string),
       ast_parse s = Returns body ->
       occurs_in (Name id) body ->
       eval s = Raises InvalidExpression).
Proof.
  intros H.
  specialize (H fragment_host "1/0+x"
                (BinOp (BinOp (Constant (CInt 1)) Div (Constant (CInt 0)))
                       Add (Name "x")) "x" eq_refl).
  assert (O : occurs_in (Name "x")
                (BinOp (BinOp (Constant (CInt 1)) Div (Constant (CInt 0)))
                       Add (Name "x"))).
  { apply occurs_below with (c := Name "x"); [apply child_right|apply occurs_here]. }
  specialize (H O). vm_compute in H. discriminate H.
Qed.

(** Running an input of the fragment on any host: the law of [ast_parse]
    gives the tree, the rest is computation. *)
Ltac parse_input s :=
  let r := eval vm_compute in (parse_fragment s) in
  let E := fresh "E" in
  assert (E : parse_fragment s = r) by (vm_compute; reflexivity);
  let L := fresh "L" in
  pose proof (ast_parse_fragment s) as L; rewrite E in L; clear E;
  try rewrite (eval_parsed _ _ L).

(** The evaluations the specification lists as examples. *)
Example eval_examples {host : Host} :
  eval "2+2" = Returns (VInt 4)
  /\ eval "2 ** 3" = Returns (VInt 8)
  /\ eval "7 % 3" = Returns (VInt 1)
  /\ eval "-5 + 3" = Returns (VInt (-2))
  /\ eval "(1+2)*3" = Returns (VInt 9)
  /\ eval "2+3*4" = Returns (VInt 14).
Proof.
  repeat split;
    match goal with |- eval ?s = _ => parse_input s; reflexivity end.
Qed.

Example eval_dangerous_inputs {host : Host} :
  eval "__import__('os')" = Raises InvalidExpression
  /\ eval "x+1" = Raises InvalidExpression
  /\ eval "1/0+x" = Raises DivisionByZero.
Proof.
  repeat split;
    match goal with |- eval ?s = _ => parse_input s; reflexivity end.
Qed.

(** C10.  The literals [True] and [False] are accepted as numbers:
    ["True"] evaluates to [True], which counts as the integer 1, and
    ["True+True"] to 2; a constant holding a bool passes the check of
    [_eval_node] as an int does. *)
Theorem booleans_are_numeric_literals {host : Host} :
  eval "True" = Returns (VBool true)
  /\ eval "False" = Returns (VBool false)
  /\ eval "True+True" = Returns (VInt 2)
  /\ as_real (VBool true) = Some (RInt 1)
  /\ (forall b : bool, _eval_node (Constant (CBool b)) = Returns (VBool b)).
Proof.
  repeat split;
    try match goal with |- eval ?s = _ => parse_input s; reflexivity end.
Qed.

(* ================================================================= *)
(** * Properties of the application *)

Section ApplicationFacts.

Context {host : Host}.

Lemma last_n_short {A : Type} (n : nat) (l : list A) :
  (List.length l <= n)%nat -> last_n n l = l.
Proof.
  intros H. unfold last_n.
  replace (List.length l - n)%nat with 0%nat by lia. reflexivity.
Qed.

Lemma last_n_length {A : Type} (n : nat) (l : list A) :
  (List.length (last_n n l) <= n)%nat.
Proof. unfold last_n. rewrite length_skipn. lia. Qed.

Lemma last_n_app {A : Type} (n : nat) (l l' : list A) :
  last_n n (last_n n l ++ l') = last_n n (l ++ l').
Proof.
  destruct (Nat.le_gt_cases (List.length l) n) as [H|H].
  - rewrite (last_n_short n l H). reflexivity.
  - unfold last_n at 1 3. rewrite !length_app.
    unfold last_n. rewrite length_skipn.
    replace (List.length l - (List.length l - n) + List.length l' - n)%nat
      with (List.length l')%nat by lia.
    replace (List.length l + List.length l' - n)%nat
      with (List.length l' + (List.length l - n))%nat by lia.
    rewrite <- skipn_skipn. f_equal.
    rewrite skipn_app.
    replace (List.length l - n - List.length l)%nat with 0%nat by lia.
    reflexivity.
Qed.

(** [_add_history] appends and keeps the last fifty. *)
Lemma add_history_last (item : string) (st : app) :
  (List.length (history st) <= 50)%nat ->
  history (_add_history item st) = last_n 50 (history st ++ [item]).
Proof.
  intros H. unfold _add_history.
  assert (L : List.length (history st ++ [item]) = S (List.length (history st)))
    by (rewrite length_app; simpl; lia).
  destruct (Nat.ltb 50 (List.length (history st ++ [item]))) eqn:B; simpl.
  - apply Nat.ltb_lt in B. unfold last_n.
    replace (List.length (history st ++ [item]) - 50)%nat with 1%nat by lia.
    reflexivity.
  - apply Nat.ltb_ge in B. symmetry. apply last_n_short. exact B.
Qed.

Lemma add_history_widget (item : string) (st : app) :
  history_list st = history st ->
  history_list (_add_history item st) = history (_add_history item st).
Proof.
  intros H. unfold _add_history. rewrite H.
  destruct (Nat.ltb 50 (List.length (history st ++ [item]))); reflexivity.
Qed.

Lemma add_history_var (item : string) (st : app) :
  var (_add_history item st) = var st
  /\ dialogs (_add_history item st) = dialogs st.
Proof.
  unfold _add_history.
  destruct (Nat.ltb 50 (List.length (history st ++ [item]))); auto.
Qed.

(** What [evaluate] does, by the outcome of [eval]. *)
Lemma evaluate_empty (st : app) :
  strip (var st) = "" -> evaluate st = st.
Proof. intros E. unfold evaluate. rewrite E. reflexivity. Qed.

Lemma evaluate_success (st : app) (v : value) :
  strip (var st) <> "" ->
  eval (strip (var st)) = Returns v ->
  evaluate st =
    set_var (str v) (_add_history (strip (var st) ++ " = " ++ str v)%string st).
Proof.
  intros N E. unfold evaluate.
  destruct (String.eqb_spec (strip (var st)) "") as [Z|_]; [contradiction|].
  rewrite E. reflexivity.
Qed.

Lemma evaluate_failure (st : app) (e : exn) :
  strip (var st) <> "" ->
  eval (strip (var st)) = Raises e ->
  (e = DivisionByZero
   /\ evaluate st = showerror "Math Error" "Division by zero is not allowed." st)
  \/ (e = InvalidExpression
      /\ evaluate st = showerror "Input Error" "Invalid expression" st).
Proof.
  intros N E. unfold evaluate.
  destruct (String.eqb_spec (strip (var st)) "") as [Z|_]; [contradiction|].
  rewrite E.
  destruct (eval_cases (strip (var st))) as [[v C]|[C|C]];
    rewrite C in E; inversion E; subst; auto.
Qed.

(** The history stays within its bound and in step with the list box. *)
Definition history_ok (st : app) : Prop :=
  (List.length (history st) <= 50)%nat /\ history_list st = history st.

Lemma step_history_ok (st : app) (a : action) :
  history_ok st -> history_ok (step st a).
Proof.
  intros [B W].
  destruct a as [s| | | | |sel|c|text]; simpl; try (split; assumption).
  - unfold evaluate.
    destruct (String.eqb (strip (var st)) ""); [split; assumption|].
    destruct (eval (strip (var st))) as [v|e].
    + split; simpl.
      * rewrite (add_history_last _ st B). apply last_n_length.
      * apply add_history_widget. exact W.
    + destruct (issubclass (exn_type e) ZeroDivisionError); [split; assumption|].
      destruct (issubclass (exn_type e) ValueError); split; assumption.
  - unfold _on_history_select. destruct sel as [|idx sel]; [split; assumption|].
    destruct (nth_error (history st) idx); split; assumption.
Qed.

Lemma run_history_ok (actions : list action) (st : app) :
  history_ok st -> history_ok (run actions st).
Proof.
  revert st. induction actions as [|a actions IH]; intros st H; simpl.
  - exact H.
  - apply IH. apply step_history_ok. exact H.
Qed.

Lemma run_evaluations (texts entries : list string) (st : app) :
  Forall2 successful texts entries ->
  (List.length (history st) <= 50)%nat ->
  history (run (evaluations texts) st) = last_n 50 (history st ++ entries).
Proof.
  intros F. revert st.
  induction F as [|t en texts entries [N [v [E En]]] F IH]; intros st B; simpl.
  - rewrite app_nil_r. symmetry. apply last_n_short. exact B.
  - rewrite (evaluate_success (set_var t st) v N E). simpl.
    rewrite IH.
    + simpl. rewrite (add_history_last _ (set_var t st) B). simpl.
      rewrite last_n_app, <- app_assoc. subst en. reflexivity.
    + simpl. rewrite (add_history_last _ (set_var t st) B).
      apply last_n_length.
Qed.

End ApplicationFacts.


Lemma fifty_one_successful :
  Forall2 (@successful fragment_host) fifty_one_texts fifty_one_entries.
Proof.
  unfold fifty_one_texts, fifty_one_entries.
  assert (G : forall l : list nat,
             Forall (fun n => @successful fragment_host (numeral n)
                                (numeral n ++ " = " ++ numeral n)%string) l ->
             Forall2 (@successful fragment_host) (map numeral l)
               (map (fun n => (numeral n ++ " = " ++ numeral n)%string) l)).
  { induction 1; simpl; constructor; assumption. }
  apply G.
  repeat (constructor;
          [split;
           [intros E; vm_compute in E; discriminate E
           |eexists; split; vm_compute; reflexivity]|]).
  constructor.
Defined.


(** C9.  An evaluation that fails leaves the text of the display, the
    history and the list box as they were (it only shows a dialog);
    [evaluate] changes the display or the history only when [eval]
    returned a value. *)
Theorem failed_evaluation_changes_nothing
    {host : Host} (st : app) (e : exn) :
  eval (strip (var st)) = Raises e ->
  var (evaluate st) = var st
  /\ history (evaluate st) = history st
  /\ history_list (evaluate st) = history_list st
  /\ (forall st' : app,
        var (evaluate st') <> var st' \/ history (evaluate st') <> history st' ->
        exists v : value, eval (strip (var st')) = Returns v).
Proof.
  intros E.
  assert (U : forall (s : app) (x : exn),
             eval (strip (var s)) = Raises x ->
             var (evaluate s) = var s /\ history (evaluate s) = history s
             /\ history_list (evaluate s) = history_list s).
  { intros s x Ex.
    destruct (String.eqb_spec (strip (var s)) "") as [Z|N].
    - rewrite (evaluate_empty s Z). auto.
    - destruct (evaluate_failure s x N Ex) as [[_ R]|[_ R]]; rewrite R; auto. }
  destruct (U st e E) as [V [H L]].
  repeat split; try assumption.
  intros st' C.
  destruct (eval (strip (var st'))) as [v|x] eqn:Ex; [eauto|].
  destruct (U st' x Ex) as [V' [H' _]].
  destruct C as [C|C]; contradiction.
Qed.

Lemma failed_evaluation_changes_nothing_witness :
  var (@evaluate fragment_host (App "1/0" [] [] [])) = "1/0"
  /\ history (@evaluate fragment_host (App "1/0" [] [] [])) = []
  /\ history_list (@evaluate fragment_host (App "1/0" [] [] [])) = []
  /\ (forall st' : app,
        var (@evaluate fragment_host st') <> var st'
        \/ history (@evaluate fragment_host st') <> history st' ->
        exists v : value, @eval fragment_host (strip (var st')) = Returns v).
Proof.
  exact (@failed_evaluation_changes_nothing fragment_host
           (App "1/0" [] [] []) DivisionByZero eq_refl).
Defined.

(* ================================================================= *)
(** * Properties of the tokenizer *)

Lemma list_ascii_of_string_app (s t : string) :
  list_ascii_of_string (s ++ t)
  = list_ascii_of_string s ++ list_ascii_of_string t.
Proof. induction s as [|c s IH]; simpl; [reflexivity|]. now rewrite IH. Qed.

Lemma span_stops (p : ascii -> bool) (cs x : list ascii) :
  starts_with p x = false ->
  snd (span p cs) = [] ->
  span p (cs ++ x) = (fst (span p cs), x).
Proof.
  intros X. induction cs as [|c cs IH]; simpl.
  - intros _. destruct x as [|c x]; simpl in *; [reflexivity|].
    rewrite X. reflexivity.
  - destruct (p c); [|discriminate].
    destruct (span p cs) as [a b]. simpl in *. intros B.
    rewrite (IH B). reflexivity.
Qed.

Lemma span_goes_on (p : ascii -> bool) (cs x : list ascii) :
  snd (span p cs) <> [] ->
  span p (cs ++ x) = (fst (span p cs), snd (span p cs) ++ x).
Proof.
  induction cs as [|c cs IH]; simpl; [congruence|].
  destruct (p c); [|reflexivity].
  destruct (span p cs) as [a b]. simpl in *. intros B.
  rewrite (IH B). reflexivity.
Qed.

Lemma lex_number_app (l x : list ascii) (c : constant) :
  lex_number l = Lexed (NUMBER c, []) ->
  ends_number x = true ->
  lex_number (l ++ x) = Lexed (NUMBER c, x).
Proof.
  unfold ends_number, lex_number. intros L X.
  apply andb_prop in X. destruct X as [X Xc].
  apply andb_prop in X. destruct X as [Xd Xp].
  apply negb_true_iff in Xd. apply negb_true_iff in Xp.
  destruct (span is_digit l) as [ip r1] eqn:S.
  destruct (starts_with (Ascii.eqb ".") r1) eqn:P.
  - destruct r1 as [|d r2]; [discriminate|]. simpl in L.
    rewrite (span_goes_on is_digit l x); rewrite S; simpl; [|discriminate].
    simpl in P. rewrite P.
    destruct (span is_digit r2) as [fp r3] eqn:S2.
    destruct (clean_end r3); [|discriminate].
    inversion L; subst.
    rewrite (span_stops is_digit r2 x Xd); rewrite S2; simpl; [|reflexivity].
    rewrite Xc. reflexivity.
  - assert (R : r1 = []).
    { destruct (negb (clean_end r1)); [discriminate|].
      destruct (starts_with (Ascii.eqb "0") ip && Nat.ltb 1 (List.length ip));
        [destruct (forallb (Ascii.eqb "0") ip); [|discriminate]|];
        inversion L; reflexivity. }
    subst r1.
    rewrite (span_stops is_digit l x Xd); rewrite S; simpl; [|reflexivity].
    rewrite Xp, Xc. simpl in *.
    destruct (starts_with (Ascii.eqb "0") ip && Nat.ltb 1 (List.length ip));
      [destruct (forallb (Ascii.eqb "0") ip); [|discriminate]|];
      inversion L; reflexivity.
Qed.

Lemma name_token_not_number (id : string) (c : constant) :
  name_token id <> NUMBER c.
Proof.
  unfold name_token.
  repeat match goal with |- context [String.eqb ?a ?b] => destruct (String.eqb a b) end;
    discriminate.
Qed.

(** Only a digit or a point starts a number. *)
Lemma lex_token_number (ch : ascii) (cs r : list ascii) (c : constant) :
  lex_token ch cs = Lexed (NUMBER c, r) ->
  lex_number (ch :: cs) = Lexed (NUMBER c, r)
  /\ (is_digit ch = true
      \/ (is_digit ch = false /\ Ascii.eqb ch "." = true
          /\ starts_with is_digit cs = true)).
Proof.
  unfold lex_token.
  destruct (is_digit ch) eqn:D; [auto|].
  destruct (Ascii.eqb ch ".") eqn:P.
  { destruct (starts_with is_digit cs) eqn:Sd; [auto|discriminate]. }
  destruct (is_name_start ch).
  { unfold lex_name. destruct (span is_name_char (ch :: cs)) as [w r'].
    destruct (_ || _); [discriminate|].
    intros E. inversion E as [[T R]].
    exfalso. exact (name_token_not_number _ _ T). }
  destruct (is_quote ch).
  { unfold lex_string, lex_short_string.
    destruct cs as [|c1 [|c2 cs']];
      repeat match goal with
        | |- context [span ?p ?l] => destruct (span p l) as [? [|? ?]]
        | |- context [if ?b then _ else _] => destruct b
        end; discriminate. }
  unfold lex_punct.
  repeat match goal with
    | |- context [if ?b then _ else _] => destruct b
    end; discriminate.
Qed.

Lemma digit_is_plain (ch : ascii) :
  is_digit ch = true \/ Ascii.eqb ch "." = true ->
  is_blank ch = false /\ Ascii.eqb ch "#" = false
  /\ Ascii.eqb "/" ch = false /\ Ascii.eqb "*" ch = false.
Proof.
  destruct ch as [[] [] [] [] [] [] [] []]; vm_compute;
    intros [H|H]; try discriminate H; auto.
Qed.

(** The text of a number, then what ends it: the token and the rest. *)
Lemma lex_token_app (ch : ascii) (cs x : list ascii) (c : constant) :
  lex_token ch cs = Lexed (NUMBER c, []) ->
  ends_number x = true ->
  lex_token ch (cs ++ x) = Lexed (NUMBER c, x).
Proof.
  intros L X.
  destruct (lex_token_number ch cs [] c L) as [N [D|[D [P Sd]]]].
  - unfold lex_token. rewrite D.
    exact (lex_number_app (ch :: cs) x c N X).
  - unfold lex_token. rewrite D, P.
    destruct cs as [|d cs]; [discriminate|]. simpl in *. rewrite Sd.
    exact (lex_number_app (ch :: d :: cs) x c N X).
Qed.

Lemma literal_starts (a : string) (c : constant) :
  number_literal a c ->
  exists (ch : ascii) (cs : list ascii),
    list_ascii_of_string a = ch :: cs
    /\ lex_token ch cs = Lexed (NUMBER c, [])
    /\ (is_digit ch = true \/ Ascii.eqb ch "." = true).
Proof.
  intros [ch [cs [E L]]]. exists ch, cs. repeat split; try assumption.
  destruct (lex_token_number ch cs [] c L) as [_ [D|[_ [P _]]]]; auto.
Qed.

Lemma lex_all_token (n : nat) (c : ascii) (cs rest : list ascii) (t : token) :
  is_blank c = false ->
  Ascii.eqb c "#" = false ->
  lex_token c cs = Lexed (t, rest) ->
  lex_all (S n) (c :: cs)
  = match lex_all n rest with
    | Lexed ts => Lexed (t :: ts)
    | other => other
    end.
Proof. intros B H L. simpl. rewrite B, H, L. reflexivity. Qed.

Lemma lex_token_slash (cs : list ascii) :
  starts_with (Ascii.eqb "/") cs = false ->
  lex_token "/" cs = Lexed (OP SLASH, cs).
Proof.
  intros H. unfold lex_token, lex_punct.
  change (is_digit "/") with false. change (is_name_start "/") with false.
  change (is_quote "/") with false. simpl. rewrite H. reflexivity.
Qed.

Lemma lex_token_percent (cs : list ascii) :
  lex_token "%" cs = Lexed (OP PERCENT, cs).
Proof. reflexivity. Qed.

(** Two number literals with a binary operator between them. *)
Lemma tokenize_operation (a b : string) (ca cb : constant)
    (sep : ascii) (p : punct) :
  number_literal a ca ->
  number_literal b cb ->
  (sep = "/"%char /\ p = SLASH) \/ (sep = "%"%char /\ p = PERCENT) ->
  tokenize (a ++ String sep b) = Lexed [NUMBER ca; OP p; NUMBER cb].
Proof.
  intros A B Sep.
  destruct (literal_starts a ca A) as [ch [cs [Ea [La Da]]]].
  destruct (literal_starts b cb B) as [ch' [cs' [Eb [Lb Db]]]].
  destruct (digit_is_plain ch Da) as [Bl [Hs _]].
  destruct (digit_is_plain ch' Db) as [Bl' [Hs' [Sl' _]]].
  assert (X : ends_number (sep :: ch' :: cs') = true).
  { unfold ends_number, clean_end. simpl.
    destruct Sep as [[-> _]|[-> _]]; reflexivity. }
  assert (T : lex_token sep (ch' :: cs') = Lexed (OP p, ch' :: cs')).
  { destruct Sep as [[-> ->]|[-> ->]];
      [apply lex_token_slash; exact Sl'|apply lex_token_percent]. }
  assert (Bs : is_blank sep = false /\ Ascii.eqb sep "#" = false)
    by (destruct Sep as [[-> _]|[-> _]]; split; reflexivity).
  destruct Bs as [Bs Hss].
  unfold tokenize. rewrite list_ascii_of_string_app. simpl.
  rewrite Ea, Eb. simpl starts_with. rewrite Bl.
  rewrite length_app. simpl List.length.
  change ((ch :: cs) ++ sep :: ch' :: cs') with (ch :: (cs ++ sep :: ch' :: cs')).
  replace (S (List.length cs) + S (S (List.length cs')))%nat
    with (S (S (S (List.length cs + List.length cs'))))%nat by lia.
  rewrite (lex_all_token _ ch _ _ _ Bl Hs
             (lex_token_app ch cs (sep :: ch' :: cs') ca La X)).
  rewrite (lex_all_token _ sep _ _ _ Bs Hss T).
  rewrite (lex_all_token _ ch' _ _ _ Bl' Hs' Lb).
  destruct (List.length cs + List.length cs')%nat; reflexivity.
Qed.

(* ================================================================= *)
(** * Division by zero *)

Section DivisionFacts.

Context {host : Host}.

(** A number literal holds an int or a float. *)
Lemma literal_constant (a : string) (c : constant) :
  number_literal a c -> (exists n, c = CInt n) \/ (exists x, c = CFloat x).
Proof.
  intros [ch [cs [_ L]]].
  destruct (lex_token_number ch cs [] c L) as [N _].
  unfold lex_number in N.
  destruct (span is_digit (ch :: cs)) as [ip r1].
  destruct (starts_with (Ascii.eqb ".") r1).
  - destruct (span is_digit (tl r1)) as [fp r3].
    destruct (clean_end r3); inversion N; eauto.
  - destruct (negb (clean_end r1)); [discriminate|].
    destruct (starts_with (Ascii.eqb "0") ip && Nat.ltb 1 (List.length ip));
      [destruct (forallb (Ascii.eqb "0") ip); [|discriminate]|];
      inversion N; eauto.
Qed.

Lemma parse_operation (a b : string) (ca cb : constant)
    (sep : ascii) (p : punct) (op : operator) :
  number_literal a ca ->
  number_literal b cb ->
  (sep = "/"%char /\ p = SLASH /\ op = Div)
  \/ (sep = "%"%char /\ p = PERCENT /\ op = Mod) ->
  ast_parse (a ++ String sep b) = Returns (BinOp (Constant ca) op (Constant cb)).
Proof.
  intros A B Sep.
  pose proof (ast_parse_fragment (a ++ String sep b)) as L.
  unfold parse_fragment in L.
  rewrite (tokenize_operation a b ca cb sep p A B) in L
    by (destruct Sep as [[? [? _]]|[? [? _]]]; auto).
  destruct Sep as [[_ [-> ->]]|[_ [-> ->]]]; exact L.
Qed.

Lemma zero_literal : number_literal "0" (CInt 0).
Proof. exists "0"%char, []. split; reflexivity. Qed.

Lemma float_of_zero : float_of_Z 0 = S754_zero false.
Proof. reflexivity. Qed.

(** [/] and [%] with a zero divisor raise the host's ZeroDivisionError. *)
Lemma zero_divisor_raises (op : operator) (vl vr : value) :
  op = Div \/ op = Mod ->
  divides_by_zero vl vr = true ->
  exists f : value -> value -> outcome value,
    _bin_ops op = Some f
    /\ exists msg, f vl vr = Raises (Exn ZeroDivisionError msg).
Proof.
  intros [->| ->] Z; simpl; eexists; (split; [reflexivity|]);
    unfold operator_truediv, operator_mod, binary_op;
    destruct vl as [bl|nl|xl|? ?], vr as [[|]|[|?|?]|y|? ?];
    simpl in Z; try discriminate Z; simpl;
    unfold long_true_divide, long_mod, float_div, float_rem, raise_fault; simpl;
    try (eexists; reflexivity);
    try (rewrite Z; eexists; reflexivity);
    try (destruct bl; simpl; rewrite Z; eexists; reflexivity);
    try (apply andb_prop in Z; destruct Z as [Z1 Z2];
         apply negb_true_iff in Z1; rewrite Z1; simpl; rewrite Z2;
         eexists; reflexivity).
Qed.

Lemma eval_zero_divisor (s : string) (l r : expr) (op : operator)
    (vl vr : value) :
  ast_parse s = Returns (BinOp l op r) ->
  op = Div \/ op = Mod ->
  _eval_node l = Returns vl ->
  _eval_node r = Returns vr ->
  divides_by_zero vl vr = true ->
  eval s = Raises DivisionByZero.
Proof.
  intros P O L R Z.
  destruct (zero_divisor_raises op vl vr O Z) as [f [F [msg E]]].
  rewrite (eval_parsed s _ P). simpl. rewrite F, L, R. simpl. rewrite E.
  reflexivity.
Qed.

End DivisionFacts.




(* ================================================================= *)
(** * Properties of the parser *)

(** ** More fuel changes no answer *)

Definition extends (rec rec' : nonterminal -> list token -> parsed expr) : Prop :=
  forall (nt : nonterminal) (ts : list token),
    rec nt ts <> OutOfFuel -> rec' nt ts = rec nt ts.

Ltac rec_call X rec :=
  match goal with
  | H : context [rec ?k ?t] |- _ =>
      let Xk := fresh "Xk" in
      let E := fresh "E" in
      pose proof (X k t) as Xk;
      destruct (rec k t) as [| |? ?] eqn:E;
      [ simpl in H; try (exfalso; apply H; reflexivity)
      | rewrite Xk by discriminate; simpl in H |- *
      | rewrite Xk by discriminate; simpl in H |- * ];
      clear Xk
  end.

Ltac split_tokens ts :=
  destruct ts as [|[?|?|?|?|[]] [|[?|?|?|?|[]] ?]].

Lemma parse_step_extends (rec rec' : nonterminal -> list token -> parsed expr) :
  extends rec rec' -> extends (parse_step rec) (parse_step rec').
Proof.
  intros X nt ts H.
  destruct nt; simpl in H |- *; try split_tokens ts; simpl in H |- *;
    try reflexivity;
    repeat (rec_call X rec; unfold closing in H |- *; try reflexivity;
            try match goal with
              | |- context [match ?r with [] => _ | _ :: _ => _ end] =>
                  split_tokens r; simpl in H |- *; try reflexivity
              end).
Qed.

Lemma parse_extends (n : nat) : extends (parse n) (parse (S n)).
Proof.
  induction n as [|n IH].
  - intros nt ts H. exfalso. apply H. reflexivity.
  - exact (parse_step_extends (parse n) (parse (S n)) IH).
Qed.

Lemma parse_more_fuel (n m : nat) (nt : nonterminal) (ts : list token) :
  parse n nt ts <> OutOfFuel -> (n <= m)%nat -> parse m nt ts = parse n nt ts.
Proof.
  intros H L. induction L as [|m L IH]; [reflexivity|].
  rewrite (parse_extends m nt ts); [exact IH|]. rewrite IH. exact H.
Qed.

(** ** What an accepted prefix looks like *)

Definition head_is_number (p : list token) : bool :=
  match p with
  | t :: _ => is_number t
  | [] => false
  end.

(** A run of tokens that leaves the depth of parentheses as it found it,
    never closing more than it opened, and holds no two adjacent numbers. *)
Definition piece (p : list token) : Prop :=
  (forall d : nat, depth_after d p = Some d) /\ adjacent_numbers p = false.

Definition is_loop (nt : nonterminal) : bool :=
  match nt with
  | SumRest _ | TermRest _ | Trailers _ | Strings _ => true
  | _ => false
  end.

Definition consumed_ok (nt : nonterminal) (p : list token) : Prop :=
  piece p /\ if is_loop nt then head_is_number p = false else p <> [].

Definition consumes (rec : nonterminal -> list token -> parsed expr) : Prop :=
  forall (nt : nonterminal) (ts : list token) (e : expr) (r : list token),
    rec nt ts = Accept e r -> exists p, ts = p ++ r /\ consumed_ok nt p.

Lemma depth_after_app (p q : list token) (d : nat) :
  depth_after d (p ++ q)
  = match depth_after d p with
    | Some d' => depth_after d' q
    | None => None
    end.
Proof.
  revert d. induction p as [|t p IH]; intros d; simpl; [reflexivity|].
  destruct t as [?|?|?|?|[]]; try apply IH.
  destruct d; [reflexivity|apply IH].
Qed.

Lemma adjacent_numbers_app (p q : list token) :
  head_is_number q = false ->
  adjacent_numbers (p ++ q) = adjacent_numbers p || adjacent_numbers q.
Proof.
  intros Q. induction p as [|t p IH]; simpl; [reflexivity|].
  rewrite IH. destruct p as [|t' p]; simpl.
  - destruct q as [|t' q]; simpl in *; [|rewrite Q];
      rewrite ?andb_false_r; reflexivity.
  - rewrite orb_assoc. reflexivity.
Qed.

Lemma piece_nil : piece [].
Proof. split; [intros d|]; reflexivity. Qed.

Lemma piece_app (p q : list token) :
  piece p -> piece q -> head_is_number q = false -> piece (p ++ q).
Proof.
  intros [Dp Ap] [Dq Aq] Q. split.
  - intros d. rewrite depth_after_app, Dp. apply Dq.
  - rewrite (adjacent_numbers_app p q Q), Ap, Aq. reflexivity.
Qed.

Definition is_paren (o : punct) : bool :=
  match o with
  | LPAR | RPAR => true
  | _ => false
  end.

Lemma piece_op (o : punct) (q : list token) :
  is_paren o = false -> piece q -> piece (OP o :: q).
Proof.
  intros O [Dq Aq]. split.
  - intros d. destruct o; try discriminate O; apply Dq.
  - simpl. exact Aq.
Qed.

Definition is_op (t : token) : bool :=
  match t with
  | OP _ => true
  | _ => false
  end.

Lemma piece_atom (t : token) (q : list token) :
  is_op t = false ->
  piece q -> head_is_number q = false -> piece (t :: q).
Proof.
  intros T [Dq Aq] Q. split.
  - intros d. destruct t; try discriminate T; apply Dq.
  - simpl. rewrite Aq. destruct q; simpl in *; [|rewrite Q];
      rewrite ?andb_false_r; reflexivity.
Qed.

Lemma piece_app_op (p q : list token) (o : punct) :
  piece p -> is_paren o = false -> piece q -> piece (p ++ OP o :: q).
Proof.
  intros P O Q. apply piece_app; [exact P| |reflexivity].
  apply piece_op; assumption.
Qed.

Lemma piece_closing (q : list token) (d : nat) :
  piece q -> depth_after (S d) (OP RPAR :: q) = Some d
             /\ adjacent_numbers (OP RPAR :: q) = false.
Proof. intros [Dq Aq]. split; simpl; [apply Dq|exact Aq]. Qed.

Lemma piece_group (p q : list token) :
  piece p -> piece q -> piece (OP LPAR :: p ++ OP RPAR :: q).
Proof.
  intros [Dp Ap] [Dq Aq]. split.
  - intros d. simpl. rewrite depth_after_app, Dp. simpl. apply Dq.
  - simpl. rewrite adjacent_numbers_app by reflexivity.
    simpl. rewrite Ap, Aq. reflexivity.
Qed.

Lemma piece_group_op (o : punct) (p q : list token) :
  is_paren o = false ->
  piece p -> piece q -> piece (OP LPAR :: OP o :: p ++ OP RPAR :: q).
Proof.
  intros O [Dp Ap] [Dq Aq]. split.
  - intros d. destruct o; try discriminate O; simpl;
      rewrite depth_after_app, Dp; simpl; apply Dq.
  - simpl. rewrite adjacent_numbers_app by reflexivity.
    simpl. rewrite Ap, Aq. reflexivity.
Qed.

Lemma piece_unit (q : list token) :
  piece q -> piece (OP LPAR :: OP RPAR :: q).
Proof. intros Q. exact (piece_group [] q piece_nil Q). Qed.

Lemma app_nonempty {A : Type} (p q : list A) : p <> [] -> p ++ q <> [].
Proof. destruct p; [congruence|discriminate]. Qed.

Create HintDb pieces.

#[local] Hint Resolve piece_nil piece_app piece_op piece_atom piece_app_op
  piece_group piece_group_op piece_unit : pieces.
#[local] Hint Extern 1 (is_paren _ = false) => reflexivity : pieces.
#[local] Hint Extern 1 (head_is_number _ = false) =>
  first [assumption | reflexivity] : pieces.
#[local] Hint Extern 1 (is_op _ = false) => reflexivity : pieces.

(** The tokens of [t] that stand before its tail [r]. *)
Ltac prefix_of t r :=
  lazymatch t with
  | r => constr:(@nil token)
  | ?p ++ r => constr:(p)
  | ?x :: ?t' => let p := prefix_of t' r in constr:(x :: p)
  | ?p1 ++ ?t' => let p := prefix_of t' r in constr:(p1 ++ p)
  end.

(** Case analysis on what [parse_step] looks at in the hypothesis [H];
    [oof E] deals with a reference to a rule that ran out of fuel, [use E]
    turns the equation [E] of an accepted one into facts. *)
Ltac analyse rec H oof use :=
  repeat first
    [ discriminate H
    | match type of H with
      | context [match ?l with [] => _ | _ :: _ => _ end] =>
          destruct l; simpl in H
      | context [match ?t with
                 | NUMBER _ => _ | NAME _ => _ | KEYWORD _ => _
                 | STRING _ => _ | OP _ => _ end] =>
          destruct t; simpl in H
      | context [match ?o with
                 | PLUS => _ | MINUS => _ | STAR => _ | SLASH => _
                 | PERCENT => _ | DOUBLESTAR => _ | DOUBLESLASH => _
                 | LPAR => _ | RPAR => _ end] =>
          destruct o; simpl in H
      | context [closing _ ?l] => unfold closing in H
      | context [rec ?k ?t] =>
          let E := fresh "E" in
          destruct (rec k t) as [| |? ?] eqn:E; simpl in H;
          [oof E|idtac|use E]
      end ].

Lemma parse_step_consumes (rec : nonterminal -> list token -> parsed expr) :
  consumes rec -> consumes (parse_step rec).
Proof.
  intros C nt ts e r H.
  destruct nt; simpl in H;
    analyse rec H ltac:(fun E => idtac)
      ltac:(fun E =>
              apply C in E; destruct E as [? [E [? ?]]];
              simpl is_loop in *; cbv iota in *;
              match type of E with
              | [] = _ =>
                  symmetry in E; apply app_eq_nil in E; destruct E; subst
              | ?x = _ => first [subst x | rewrite E in * ]
              end).
  all: try (inversion H; subst; clear H).
  all: match goal with
       | |- exists p, ?t = p ++ ?r /\ _ =>
           let p := prefix_of t r in exists p
       end.
  all: split; [simpl; repeat (rewrite <- app_assoc; simpl); reflexivity|].
  all: split; [auto 8 with pieces|simpl].
  all: try reflexivity; try discriminate; try (apply app_nonempty; assumption).
  all: try assumption; try congruence.
Qed.

Lemma parse_consumes (n : nat) : consumes (parse n).
Proof.
  induction n as [|n IH].
  - intros nt ts e r H. discriminate H.
  - exact (parse_step_consumes (parse n) IH).
Qed.

Lemma consumes_length (rec : nonterminal -> list token -> parsed expr)
    (nt : nonterminal) (ts : list token) (e : expr) (r : list token) :
  consumes rec ->
  rec nt ts = Accept e r ->
  (List.length r + (if is_loop nt then 0 else 1) <= List.length ts)%nat.
Proof.
  intros C H. destruct (C nt ts e r H) as [p [-> [_ N]]].
  rewrite length_app. destruct (is_loop nt); [lia|].
  destruct p; [congruence|simpl; lia].
Qed.

(** ** The fuel of [parse_tokens] is enough *)

Definition rank (nt : nonterminal) : nat :=
  match nt with
  | Sum => 6
  | Term => 5
  | Factor => 4
  | Power => 3
  | Primary => 2
  | _ => 1
  end.

Lemma parse_step_enough (rec : nonterminal -> list token -> parsed expr)
    (n : nat) :
  consumes rec ->
  (forall (nt : nonterminal) (ts : list token),
     (8 * List.length ts + rank nt <= n)%nat -> rec nt ts <> OutOfFuel) ->
  forall (nt : nonterminal) (ts : list token),
    (8 * List.length ts + rank nt <= S n)%nat ->
    parse_step rec nt ts <> OutOfFuel.
Proof.
  intros C B nt ts L H.
  destruct nt; simpl in H, L;
    analyse rec H
      ltac:(fun E => exfalso; revert E; apply B; simpl in *; lia)
      ltac:(fun E => apply (consumes_length rec _ _ _ _ C) in E; simpl in E).
Qed.

Lemma parse_enough (n : nat) (nt : nonterminal) (ts : list token) :
  (8 * List.length ts + rank nt <= n)%nat -> parse n nt ts <> OutOfFuel.
Proof.
  revert nt ts. induction n as [|n IH]; intros nt ts L.
  - destruct nt; simpl in L; lia.
  - exact (parse_step_enough (parse n) n (parse_consumes n) IH nt ts L).
Qed.

Lemma parse_tokens_answers (ts : list token) : parse_tokens ts <> None.
Proof.
  unfold parse_tokens.
  pose proof (parse_enough (parse_fuel ts) Sum ts) as E.
  destruct (parse (parse_fuel ts) Sum ts) as [| |e [|t r]]; try discriminate.
  exfalso. apply E; [|reflexivity]. unfold parse_fuel. simpl. lia.
Qed.

(** An accepted list of tokens has matching parentheses and no two
    adjacent numbers. *)
Lemma parsed_tokens_are_pieces (ts : list token) (e : expr) :
  parse_tokens ts = Some (Parsed e) ->
  balanced ts = true /\ adjacent_numbers ts = false.
Proof.
  unfold parse_tokens. intros H.
  destruct (parse (parse_fuel ts) Sum ts) as [| |e' [|t r]] eqn:E;
    try discriminate.
  destruct (parse_consumes _ _ _ _ _ E) as [p [-> [[D A] _]]].
  rewrite app_nil_r. unfold balanced. rewrite D. auto.
Qed.

Lemma eval_parse_error {host : Host} (s : string) :
  parse_fragment s = Some ParseError ->
  (exists msg : string, ast_parse s = Raises (Exn SyntaxError msg))
  /\ eval s = Raises InvalidExpression.
Proof.
  intros P. pose proof (ast_parse_fragment s) as L. rewrite P in L.
  destruct L as [msg L]. split; [eauto|].
  exact (eval_unparsed s _ L).
Qed.

Lemma malformed_tokens_rejected (ts : list token) :
  balanced ts = false \/ adjacent_numbers ts = true ->
  parse_tokens ts = Some ParseError.
Proof.
  intros B. pose proof (parse_tokens_answers ts) as A.
  destruct (parse_tokens ts) as [[|e]|] eqn:E; [reflexivity| |congruence].
  destruct (parsed_tokens_are_pieces ts e E) as [Bt At].
  destruct B; congruence.
Qed.




Example eval_malformed_inputs {host : Host} :
  eval "" = Raises InvalidExpression
  /\ eval "(1+2" = Raises InvalidExpression
  /\ eval "1+2)" = Raises InvalidExpression
  /\ eval "1.2.3" = Raises InvalidExpression
  /\ eval "007" = Raises InvalidExpression
  /\ eval "1#(" = Returns (VInt 1).
Proof.
  repeat split; try (apply eval_parse_error; reflexivity).
  parse_input "1#(". reflexivity.
Qed.

(* ================================================================= *)
(** * Precedence

    Every arithmetic tree is what the parser makes of its own tokens,
    printed with the parentheses the table [layout] asks for.  The proof
    follows the grammar rule by rule, on a reading of [parse] in which the
    fuel no longer shows. *)

(** [parse] gives [r] whatever the fuel, from some fuel on. *)
Definition stable (nt : nonterminal) (ts : list token) (r : parsed expr) : Prop :=
  exists n : nat, forall m : nat, (n <= m)%nat -> parse m nt ts = r.

(** The operator [p] carries on an expression of level [k]. *)
Definition continues (k : nat) (p : punct) : bool :=
  match p with
  | LPAR => true
  | DOUBLESTAR => Nat.leb k 2
  | STAR | SLASH | DOUBLESLASH | PERCENT => Nat.leb k 1
  | PLUS | MINUS => Nat.leb k 0
  | RPAR => false
  end.

(** An expression of level [k] that stands before [rest] ends there. *)
Definition ends (k : nat) (rest : list token) : bool :=
  match rest with
  | OP p :: _ => negb (continues k p)
  | _ => true
  end.

Definition is_sign (ts : list token) : bool :=
  match ts with
  | OP (PLUS | MINUS) :: _ => true
  | _ => false
  end.

Ltac fuel_of H := match type of H with forall m : nat, (?n <= m)%nat -> _ => n end.

Ltac open_stable :=
  repeat match goal with
         | H : stable _ _ _ |- _ => let n := fresh "n" in destruct H as [n H]
         end.

Ltac run_stable :=
  let m := fresh "m" in
  let Hm := fresh "Hm" in
  intros m Hm; destruct m as [|m]; [lia|]; simpl;
  repeat match goal with
         | H : forall m : nat, _ -> parse m _ _ = _ |- _ =>
             rewrite H by lia; simpl
         end;
  try reflexivity.

Lemma stable_atom_number c r : stable Atom (NUMBER c :: r) (Accept (Constant c) r).
Proof. exists 1%nat. run_stable. Qed.

Lemma stable_atom_keyword c r : stable Atom (KEYWORD c :: r) (Accept (Constant c) r).
Proof. exists 1%nat. run_stable. Qed.

Lemma sum_rejects_closing n r e rest :
  parse n Sum (OP RPAR :: r) <> Accept e rest.
Proof.
  do 6 (destruct n as [|n]; [discriminate|]). simpl. discriminate.
Qed.

Lemma stable_atom_group ts e rest :
  stable Sum ts (Accept e (OP RPAR :: rest)) ->
  stable Atom (OP LPAR :: ts) (Accept e rest).
Proof.
  intros [n H]. exists (S n).
  destruct ts as [|[c|i|c|s|[]] ts];
    try (run_stable; fail).
  exfalso. exact (sum_rejects_closing n ts e _ (H n (le_n n))).
Qed.

Lemma stable_primary ts e rest :
  stable Atom ts (Accept e rest) -> ends 3 rest = true ->
  stable Primary ts (Accept e rest).
Proof.
  intros [n H] E. exists (S (S n)). run_stable.
  destruct m as [|m]; [lia|].
  destruct rest as [|[c|i|c|s|[]] rest]; try discriminate; reflexivity.
Qed.

Lemma stable_power ts e rest :
  stable Primary ts (Accept e rest) -> ends 2 rest = true ->
  stable Power ts (Accept e rest).
Proof.
  intros [n H] E. exists (S n). run_stable.
  destruct rest as [|[c|i|c|s|[]] rest]; try discriminate; reflexivity.
Qed.

Lemma stable_power_pow ts b r e rest :
  stable Primary ts (Accept b (OP DOUBLESTAR :: r)) ->
  stable Factor r (Accept e rest) ->
  stable Power ts (Accept (BinOp b Pow e) rest).
Proof.
  intros [n1 H1] [n2 H2]. exists (S (n1 + n2)). run_stable.
Qed.

Lemma stable_factor ts r :
  stable Power ts r -> is_sign ts = false -> stable Factor ts r.
Proof.
  intros [n H] E. exists (S n).
  destruct ts as [|[c|i|c|s|[]] ts]; try discriminate; run_stable.
Qed.

Lemma stable_factor_plus ts e rest :
  stable Factor ts (Accept e rest) ->
  stable Factor (OP PLUS :: ts) (Accept (UnaryOp UAdd e) rest).
Proof. intros [n H]. exists (S n). run_stable. Qed.

Lemma stable_factor_minus ts e rest :
  stable Factor ts (Accept e rest) ->
  stable Factor (OP MINUS :: ts) (Accept (UnaryOp USub e) rest).
Proof. intros [n H]. exists (S n). run_stable. Qed.

Lemma stable_term ts e rest r :
  stable Factor ts (Accept e rest) -> stable (TermRest e) rest r ->
  stable Term ts r.
Proof. intros [n1 H1] [n2 H2]. exists (S (n1 + n2)). run_stable. Qed.

Lemma stable_term_end e rest :
  ends 1 rest = true -> stable (TermRest e) rest (Accept e rest).
Proof.
  intros E. exists 1%nat.
  destruct rest as [|[c|i|c|s|[]] rest]; try discriminate; run_stable.
Qed.

Lemma stable_term_more lhs tok op ts f rest r :
  layout op = Some (tok, 1%nat, 2%nat) ->
  stable Factor ts (Accept f rest) ->
  stable (TermRest (BinOp lhs op f)) rest r ->
  stable (TermRest lhs) (OP tok :: ts) r.
Proof.
  intros L [n1 H1] [n2 H2]. exists (S (n1 + n2)).
  destruct op; inversion L; subst; run_stable.
Qed.

Lemma stable_sum ts e rest r :
  stable Term ts (Accept e rest) -> stable (SumRest e) rest r ->
  stable Sum ts r.
Proof. intros [n1 H1] [n2 H2]. exists (S (n1 + n2)). run_stable. Qed.

Lemma stable_sum_end e rest :
  ends 0 rest = true -> stable (SumRest e) rest (Accept e rest).
Proof.
  intros E. exists 1%nat.
  destruct rest as [|[c|i|c|s|[]] rest]; try discriminate; run_stable.
Qed.

Lemma stable_sum_more lhs tok op ts t rest r :
  layout op = Some (tok, 0%nat, 1%nat) ->
  stable Term ts (Accept t rest) ->
  stable (SumRest (BinOp lhs op t)) rest r ->
  stable (SumRest lhs) (OP tok :: ts) r.
Proof.
  intros L [n1 H1] [n2 H2]. exists (S (n1 + n2)).
  destruct op; inversion L; subst; run_stable.
Qed.

Lemma stable_parse_tokens ts e :
  stable Sum ts (Accept e []) -> parse_tokens ts = Some (Parsed e).
Proof.
  intros [n H]. unfold parse_tokens.
  assert (F : parse (parse_fuel ts) Sum ts <> OutOfFuel).
  { apply parse_enough. unfold parse_fuel. simpl. lia. }
  rewrite <- (parse_more_fuel _ (Nat.max n (parse_fuel ts)) _ _ F) by lia.
  rewrite H by lia. reflexivity.
Qed.

Lemma ends_higher k k' rest :
  (k <= k')%nat -> ends k rest = true -> ends k' rest = true.
Proof.
  intros L. destruct rest as [|[c|i|c|s|p] rest]; try reflexivity.
  unfold ends, continues. destruct p; try discriminate; try reflexivity;
    rewrite !negb_true_iff, !Nat.leb_gt; lia.
Qed.

Section Reading.

Variables (ts : list token) (e : expr).

Definition primary_of : Prop :=
  forall rest, ends 3 rest = true -> stable Primary (ts ++ rest) (Accept e rest).

Definition factor_of : Prop :=
  forall rest, ends 2 rest = true -> stable Factor (ts ++ rest) (Accept e rest).

Definition term_of : Prop :=
  forall rest r, ends 2 rest = true ->
    stable (TermRest e) rest r -> stable Term (ts ++ rest) r.

Definition sum_of : Prop :=
  forall rest r, ends 1 rest = true ->
    stable (SumRest e) rest r -> stable Sum (ts ++ rest) r.

Lemma primary_factor :
  (forall rest, is_sign (ts ++ rest) = false) -> primary_of -> factor_of.
Proof.
  intros S P rest E. apply stable_factor; [|apply S].
  apply stable_power; [|exact E].
  apply P. revert E. apply ends_higher. lia.
Qed.

Lemma factor_term : factor_of -> term_of.
Proof.
  intros F rest r E T. exact (stable_term _ _ _ _ (F rest E) T).
Qed.

Lemma term_sum : term_of -> sum_of.
Proof.
  intros T rest r E S. apply (stable_sum _ e rest); [|exact S].
  apply T; [revert E; apply ends_higher; lia|].
  apply stable_term_end, E.
Qed.

End Reading.

Lemma sum_group ts e :
  sum_of ts e -> primary_of (OP LPAR :: ts ++ [OP RPAR]) e.
Proof.
  intros S rest E. apply stable_primary; [|exact E].
  simpl. rewrite <- app_assoc. simpl. apply stable_atom_group.
  apply S; [reflexivity|]. apply stable_sum_end. reflexivity.
Qed.

(** The tokens of [e] are read back as [e] wherever a sum, a term, a factor
    or a primary is expected, in parentheses where the level requires. *)
Definition reads (e : expr) : Prop :=
  primary_of (at_level 3 e (show e)) e
  /\ factor_of (at_level 2 e (show e)) e
  /\ term_of (at_level 1 e (show e)) e
  /\ sum_of (show e) e.

Lemma reads_group e : sum_of (show e) e ->
  primary_of (OP LPAR :: show e ++ [OP RPAR]) e
  /\ factor_of (OP LPAR :: show e ++ [OP RPAR]) e
  /\ term_of (OP LPAR :: show e ++ [OP RPAR]) e.
Proof.
  intros S. pose proof (sum_group _ _ S) as P.
  assert (F : factor_of (OP LPAR :: show e ++ [OP RPAR]) e).
  { apply primary_factor; [reflexivity|exact P]. }
  auto using factor_term.
Qed.

Lemma reads_sum e :
  level_of e = 0%nat -> sum_of (show e) e -> reads e.
Proof.
  intros L S. destruct (reads_group e S) as (P & F & T).
  unfold reads, at_level. rewrite L. simpl. auto.
Qed.

Lemma reads_term e :
  level_of e = 1%nat -> term_of (show e) e -> reads e.
Proof.
  intros L T. pose proof (term_sum _ _ T) as S.
  destruct (reads_group e S) as (P & F & _).
  unfold reads, at_level. rewrite L. simpl. auto.
Qed.

Lemma reads_factor e :
  level_of e = 2%nat -> factor_of (show e) e -> reads e.
Proof.
  intros L F. pose proof (factor_term _ _ F) as T.
  pose proof (term_sum _ _ T) as S.
  destruct (reads_group e S) as (P & _ & _).
  unfold reads, at_level. rewrite L. simpl. auto.
Qed.

Lemma reads_primary e :
  level_of e = 3%nat -> (forall rest, is_sign (show e ++ rest) = false) ->
  primary_of (show e) e -> reads e.
Proof.
  intros L N P. pose proof (primary_factor _ _ N P) as F.
  pose proof (factor_term _ _ F) as T.
  unfold reads, at_level. rewrite L. simpl. auto using term_sum.
Qed.

Lemma primary_not_sign e rest :
  arithmetic e = true -> is_sign (at_level 3 e (show e) ++ rest) = false.
Proof.
  destruct e as [l op r|op o|c| | | | |]; try discriminate.
  - destruct op; try discriminate; reflexivity.
  - destruct op; try discriminate; reflexivity.
  - destruct c; try discriminate; reflexivity.
Qed.

Lemma arithmetic_reads e : arithmetic e = true -> reads e.
Proof.
  induction e as [l IHl op r IHr|op o IHo|c| | | | |]; try discriminate.
  - simpl. destruct (layout op) as [[[tok kl] kr]|] eqn:L; [|discriminate].
    intros A. apply andb_prop in A. destruct A as [Al Ar].
    destruct (IHl Al) as (Pl & Fl & Tl & Sl).
    destruct (IHr Ar) as (Pr & Fr & Tr & Sr).
    destruct op; inversion L; subst.
    + apply reads_sum; [reflexivity|]. simpl. intros rest res E S.
      rewrite <- app_assoc. simpl. apply Sl; [reflexivity|].
      apply (stable_sum_more _ _ Add _ r rest); [reflexivity| |exact S].
      apply Tr; [revert E; apply ends_higher; lia|].
      apply stable_term_end, E.
    + apply reads_sum; [reflexivity|]. simpl. intros rest res E S.
      rewrite <- app_assoc. simpl. apply Sl; [reflexivity|].
      apply (stable_sum_more _ _ Sub _ r rest); [reflexivity| |exact S].
      apply Tr; [revert E; apply ends_higher; lia|].
      apply stable_term_end, E.
    + apply reads_term; [reflexivity|]. simpl. intros rest res E T.
      rewrite <- app_assoc. simpl. apply Tl; [reflexivity|].
      apply (stable_term_more _ _ Mult _ r rest); [reflexivity| |exact T].
      apply Fr, E.
    + apply reads_term; [reflexivity|]. simpl. intros rest res E T.
      rewrite <- app_assoc. simpl. apply Tl; [reflexivity|].
      apply (stable_term_more _ _ Div _ r rest); [reflexivity| |exact T].
      apply Fr, E.
    + apply reads_term; [reflexivity|]. simpl. intros rest res E T.
      rewrite <- app_assoc. simpl. apply Tl; [reflexivity|].
      apply (stable_term_more _ _ Mod _ r rest); [reflexivity| |exact T].
      apply Fr, E.
    + apply reads_factor; [reflexivity|]. simpl. intros rest E.
      rewrite <- app_assoc. simpl. apply stable_factor.
      * apply (stable_power_pow _ _ (at_level 2 r (show r) ++ rest)).
        -- apply Pl. reflexivity.
        -- apply Fr, E.
      * apply primary_not_sign, Al.
  - simpl. destruct op; try discriminate; intros A;
      destruct (IHo A) as (Po & Fo & To & So);
      (apply reads_factor; [reflexivity|]); simpl; intros rest E; simpl.
    + apply stable_factor_plus, Fo, E.
    + apply stable_factor_minus, Fo, E.
  - intros A. destruct c; try discriminate;
      (apply reads_primary; [reflexivity|reflexivity|]);
      intros rest E; (apply stable_primary; [|exact E]); simpl.
    + apply stable_atom_keyword.
    + apply stable_atom_number.
    + apply stable_atom_number.
Qed.

Lemma show_parses (e : expr) :
  arithmetic e = true -> parse_tokens (show e) = Some (Parsed e).
Proof.
  intros A. apply stable_parse_tokens.
  destruct (arithmetic_reads e A) as (_ & _ & _ & S).
  rewrite <- (app_nil_r (show e)). apply S; [reflexivity|].
  apply stable_sum_end. reflexivity.
Qed.

(** C4 (as amended).  Parsing follows the precedence of the host grammar:
    [**] binds tighter than a sign on its left and takes a signed
    exponent on its right, then come the unary [+] and [-], then
    [* / %], then the binary [+] and [-]; [**] associates to the right,
    the others to the left, and parentheses override.  So every
    arithmetic tree is parsed back from its tokens as printed by [show];
    ["2+3*4"] evaluates to 14, and ["-2**2"] parses as [-(2**2)] and
    evaluates to -4. *)
Theorem parsing_follows_precedence {host : Host} :
  (forall e : expr,
      arithmetic e = true -> parse_tokens (show e) = Some (Parsed e))
  /\ eval "2+3*4" = Returns (VInt 14)
  /\ ast_parse "-2**2"
     = Returns (UnaryOp USub
                  (BinOp (Constant (CInt 2)) Pow (Constant (CInt 2))))
  /\ eval "-2**2" = Returns (VInt (-4))
  /\ eval "(-2)**2" = Returns (VInt 4)
  /\ eval "2**3**2" = Returns (VInt 512)
  /\ eval "8-3-2" = Returns (VInt 3)
  /\ eval "8/4/2" = eval "(8/4)/2"
  /\ eval "(2+3)*4" = Returns (VInt 20).
Proof.
  split; [exact show_parses|].
  repeat split.
  - parse_input "2+3*4". reflexivity.
  - pose proof (ast_parse_fragment "-2**2") as L. exact L.
  - parse_input "-2**2". reflexivity.
  - parse_input "(-2)**2". reflexivity.
  - parse_input "2**3**2". reflexivity.
  - parse_input "8-3-2". reflexivity.
  - parse_input "8/4/2". parse_input "(8/4)/2". reflexivity.
  - parse_input "(2+3)*4". reflexivity.
Qed.

(** C4 as stated fails: ["-2**2"] is not parsed as [(-2)**2]. *)
Lemma sign_binds_looser_than_power :
  ~ (forall host : Host,
       ast_parse "-2**2"
       = Returns (BinOp (UnaryOp USub (Constant (CInt 2))) Pow
                    (Constant (CInt 2)))).
Proof.
  intros H. specialize (H fragment_host). vm_compute in H. discriminate H.
Qed.

Example show_examples :
  tokenize "2+3*4"
  = Lexed (show (BinOp (Constant (CInt 2)) Add
                   (BinOp (Constant (CInt 3)) Mult (Constant (CInt 4)))))
  /\ tokenize "(2+3)*4"
     = Lexed (show (BinOp (BinOp (Constant (CInt 2)) Add (Constant (CInt 3)))
                      Mult (Constant (CInt 4))))
  /\ tokenize "-2**2"
     = Lexed (show (UnaryOp USub
                      (BinOp (Constant (CInt 2)) Pow (Constant (CInt 2)))))
  /\ tokenize "(-2)**2"
     = Lexed (show (BinOp (UnaryOp USub (Constant (CInt 2))) Pow
                      (Constant (CInt 2))))
  /\ tokenize "2**-3**2"
     = Lexed (show (BinOp (Constant (CInt 2)) Pow
                      (UnaryOp USub
                         (BinOp (Constant (CInt 3)) Pow (Constant (CInt 2))))))
  /\ tokenize "8-(3-2)"
     = Lexed (show (BinOp (Constant (CInt 8)) Sub
                      (BinOp (Constant (CInt 3)) Sub (Constant (CInt 2))))).
Proof. repeat split. Qed.

(* ================================================================= *)
(** * Division and remainder *)

(** ** Rounding keeps the sign and loses no number to zero *)

Lemma digits2_pos_size (p : positive) : digits2_pos p = Pos.size p.
Proof. induction p; simpl; congruence. Qed.

Lemma Zdigits2_log2 (m : Z) : 0 < m -> Zdigits2 m = Z.log2 m + 1.
Proof.
  destruct m as [|p|p]; try lia. intros _. simpl.
  destruct p; simpl; rewrite ?digits2_pos_size; lia.
Qed.

Lemma shr_1_m (mrs : shr_record) :
  0 <= shr_m mrs -> shr_m (shr_1 mrs) = shr_m mrs / 2.
Proof.
  destruct mrs as [m r s]. simpl. intros H.
  destruct m as [|[p|p|]|p]; cbn [shr_m]; try lia; try reflexivity.
  - apply Z.div_unique with 1; lia.
  - apply Z.div_unique with 0; lia.
Qed.

Lemma iter_shr_m (p : positive) (mrs : shr_record) :
  0 <= shr_m mrs ->
  shr_m (iter_pos shr_1 p mrs) = shr_m mrs / 2 ^ Zpos p.
Proof.
  revert mrs. induction p as [p IH|p IH|]; intros mrs H; simpl iter_pos.
  - assert (H0 : 0 <= shr_m (shr_1 mrs)).
    { rewrite shr_1_m by exact H. apply Z.div_pos; lia. }
    assert (H1 : 0 <= shr_m (iter_pos shr_1 p (shr_1 mrs))).
    { rewrite IH by exact H0. apply Z.div_pos; lia. }
    rewrite IH, IH, shr_1_m by assumption.
    rewrite !Z.div_div by lia. f_equal.
    replace (Z.pos p~1) with (Z.pos p + Z.pos p + 1) by lia.
    rewrite !Z.pow_add_r by lia. change (2 ^ 1) with 2. ring.
  - assert (H1 : 0 <= shr_m (iter_pos shr_1 p mrs)).
    { rewrite IH by exact H. apply Z.div_pos; lia. }
    rewrite IH, IH by assumption.
    rewrite !Z.div_div by lia. f_equal.
    replace (Z.pos p~0) with (Z.pos p + Z.pos p) by lia.
    rewrite !Z.pow_add_r by lia. ring.
  - rewrite shr_1_m by exact H. reflexivity.
Qed.

(** What [shr] leaves of the mantissa, and where the exponent goes. *)
Lemma shr_spec (mrs : shr_record) (e n : Z) :
  0 <= shr_m mrs ->
  shr_m (fst (shr mrs e n)) = shr_m mrs / 2 ^ Z.max 0 n
  /\ snd (shr mrs e n) = e + Z.max 0 n.
Proof.
  intros H. destruct n as [|p|p]; simpl.
  - rewrite Z.div_1_r. lia.
  - rewrite iter_shr_m by exact H. change (Z.pow_pos 2 p) with (2 ^ Zpos p). lia.
  - rewrite Z.div_1_r. lia.
Qed.

Lemma shr_record_of_loc_m (m : Z) (l : location) :
  shr_m (shr_record_of_loc m l) = m.
Proof. destruct l as [|[]]; reflexivity. Qed.

Definition emin64 : Z := emin prec emax.

(** A number of weight [Zdigits2 m + e] above the least exponent is not
    shifted away. *)
Lemma shr_fexp_spec (m e : Z) (l : location) :
  0 <= m ->
  0 <= shr_m (fst (shr_fexp prec emax m e l))
  /\ (0 < m -> emin64 < Zdigits2 m + e ->
      0 < shr_m (fst (shr_fexp prec emax m e l))
      /\ emin64 < Zdigits2 (shr_m (fst (shr_fexp prec emax m e l)))
                  + snd (shr_fexp prec emax m e l)).
Proof.
  intros H. unfold shr_fexp.
  set (n := fexp prec emax (Zdigits2 m + e) - e).
  destruct (shr_spec (shr_record_of_loc m l) e n) as [M E];
    [rewrite shr_record_of_loc_m; exact H|].
  rewrite shr_record_of_loc_m in M. rewrite M, E. split.
  - apply Z.div_pos; lia.
  - intros P W. pose proof (Z.log2_nonneg m) as G.
    assert (N : Z.max 0 n <= Z.log2 m /\ emin64 - e <= Z.max 0 n).
    { unfold n, fexp, emin64, emin, prec, emax in *.
      rewrite Zdigits2_log2 in * by exact P. lia. }
    destruct N as [N N'].
    assert (Q : 0 < m / 2 ^ Z.max 0 n).
    { apply Z.div_str_pos. split; [lia|].
      apply Z.le_trans with (2 ^ Z.log2 m).
      - apply Z.pow_le_mono_r; lia.
      - apply Z.log2_spec. exact P. }
    split; [exact Q|]. rewrite Zdigits2_log2 by exact Q.
    rewrite <- Z.shiftr_div_pow2, Z.log2_shiftr by lia. lia.
Qed.

Lemma round_nearest_even_ge (m : Z) (l : location) :
  m <= round_nearest_even m l.
Proof.
  destruct l as [|[]]; simpl; try lia. destruct (Z.even m); lia.
Qed.

Lemma Zdigits2_mono (m m' : Z) : 0 < m -> m <= m' -> Zdigits2 m <= Zdigits2 m'.
Proof.
  intros P L. rewrite !Zdigits2_log2 by lia.
  pose proof (Z.log2_le_mono m m' L). lia.
Qed.

(** Rounding a mantissa that is not negative gives a zero, a number or an
    infinity of the sign asked for. *)
Lemma binary_round_aux_sign (s : bool) (m e : Z) (l : location) :
  0 <= m ->
  is_nan (binary_round_aux prec emax s m e l) = false
  /\ signbit (binary_round_aux prec emax s m e l) = s
  /\ (0 < m -> emin64 < Zdigits2 m + e ->
      is_zero (binary_round_aux prec emax s m e l) = false).
Proof.
  intros H. unfold binary_round_aux.
  destruct (shr_fexp_spec m e l H) as [H1 P1].
  destruct (shr_fexp prec emax m e l) as [mrs1 e1]. simpl fst in *. simpl snd in *.
  set (m2 := round_nearest_even (shr_m mrs1) (loc_of_shr_record mrs1)).
  assert (L2 : shr_m mrs1 <= m2) by apply round_nearest_even_ge.
  assert (H2 : 0 <= m2) by lia.
  destruct (shr_fexp_spec m2 e1 loc_Exact H2) as [H3 P3].
  destruct (shr_fexp prec emax m2 e1 loc_Exact) as [mrs3 e3].
  simpl fst in *. simpl snd in *.
  destruct (shr_m mrs3) as [|p|p] eqn:M3.
  - repeat split. intros P W. exfalso.
    destruct (P1 P W) as [Q1 W1].
    assert (Q3 : 0 < 0).
    { apply P3; [lia|].
      pose proof (Zdigits2_mono (shr_m mrs1) m2 Q1 L2). lia. }
    lia.
  - destruct (e3 <=? emax - prec); repeat split.
  - lia.
Qed.

Lemma shl_align_spec (m : positive) (e e' : Z) :
  snd (shl_align m e e') = Z.min e e'
  /\ Zpos (fst (shl_align m e e')) = Zpos m * 2 ^ (e - Z.min e e').
Proof.
  unfold shl_align. destruct (e' - e) as [|d|d] eqn:D; cbn [fst snd].
  - replace (e - Z.min e e') with 0 by lia. change (2 ^ 0) with 1. lia.
  - replace (e - Z.min e e') with 0 by lia. change (2 ^ 0) with 1. lia.
  - replace (e - Z.min e e') with (Zpos d) by lia.
    split; [lia|].
    change (Pos.iter xO m d) with (shift_pos d m).
    rewrite shift_pos_correct. change (Zpower_pos 2 d) with (2 ^ Zpos d). lia.
Qed.

Lemma binary_round_sign (s : bool) (m : positive) (e : Z) :
  is_nan (binary_round prec emax s m e) = false
  /\ signbit (binary_round prec emax s m e) = s
  /\ (emin64 < Zdigits2 (Zpos m) + e ->
      is_zero (binary_round prec emax s m e) = false).
Proof.
  unfold binary_round.
  pose proof (shl_align_spec m e
                (fexp prec emax (Zpos (digits2_pos m) + e))) as [E M].
  destruct (shl_align m e (fexp prec emax (Zpos (digits2_pos m) + e)))
    as [mz ez].
  simpl fst in *. simpl snd in *.
  destruct (binary_round_aux_sign s (Zpos mz) ez loc_Exact) as (N & S & Z);
    [lia|].
  repeat split; try assumption.
  intros W. apply Z; [lia|].
  rewrite Zdigits2_log2 in * by lia.
  rewrite M, E, Z.log2_mul_pow2 by lia. lia.
Qed.

Lemma binary_normalize_sign (z e : Z) :
  z <> 0 ->
  is_nan (binary_normalize prec emax z e false) = false
  /\ signbit (binary_normalize prec emax z e false) = (z <? 0).
Proof.
  intros N. destruct z as [|p|p]; [congruence| |]; simpl;
    destruct (binary_round_sign false p e) as (A & B & _);
    destruct (binary_round_sign true p e) as (C & D & _); auto.
Qed.

(** An int that is not zero is not converted to zero. *)
Lemma float_of_Z_nonzero (n : Z) : n <> 0 -> is_zero (float_of_Z n) = false.
Proof.
  intros N. unfold float_of_Z.
  destruct n as [|p|p]; [congruence| |]; simpl;
    [destruct (binary_round_sign false p 0) as (_ & _ & Z)
    |destruct (binary_round_sign true p 0) as (_ & _ & Z)];
    apply Z; unfold emin64, emin, prec, emax; simpl; lia.
Qed.

(** ** The sign of a float remainder *)

(** The sum of two numbers of opposite signs has the sign of the one that
    is larger in magnitude. *)
Lemma fadd_opposite (s : bool) (m1 m2 : positive) (e1 e2 : Z) :
  Zpos m1 * 2 ^ (e1 - Z.min e1 e2) < Zpos m2 * 2 ^ (e2 - Z.min e1 e2) ->
  is_nan (fadd (S754_finite (negb s) m1 e1) (S754_finite s m2 e2)) = false
  /\ signbit (fadd (S754_finite (negb s) m1 e1) (S754_finite s m2 e2)) = s.
Proof.
  intros L. unfold fadd, SFadd.
  pose proof (shl_align_spec m1 e1 (Z.min e1 e2)) as [_ A].
  pose proof (shl_align_spec m2 e2 (Z.min e1 e2)) as [_ B].
  replace (Z.min e1 (Z.min e1 e2)) with (Z.min e1 e2) in A by lia.
  replace (Z.min e2 (Z.min e1 e2)) with (Z.min e1 e2) in B by lia.
  rewrite <- A, <- B in L.
  set (a := Zpos (fst (shl_align m1 e1 (Z.min e1 e2)))) in *.
  set (b := Zpos (fst (shl_align m2 e2 (Z.min e1 e2)))) in *.
  destruct s; simpl negb; unfold cond_Zopp.
  - destruct (binary_normalize_sign (a + - b) (Z.min e1 e2)) as [N S]; [lia|].
    split; [exact N|]. rewrite S. apply Z.ltb_lt. lia.
  - destruct (binary_normalize_sign (- a + b) (Z.min e1 e2)) as [N S]; [lia|].
    split; [exact N|]. rewrite S. apply Z.ltb_ge. lia.
Qed.

(** [fmod] of two numbers: a zero of the sign of [x], or a number of that
    sign that is smaller than [y]. *)
Lemma fmod_finite (sx sy : bool) (mx my : positive) (ex ey : Z) :
  fmod (S754_finite sx mx ex) (S754_finite sy my ey) = S754_zero sx
  \/ exists (m : positive) (e : Z),
       fmod (S754_finite sx mx ex) (S754_finite sy my ey) = S754_finite sx m e
       /\ Zpos m * 2 ^ (e - Z.min e ey) < Zpos my * 2 ^ (ey - Z.min e ey).
Proof.
  unfold fmod. set (e := Z.min ex ey).
  pose proof (Z.mod_pos_bound (Zpos mx * 2 ^ (ex - e)) (Zpos my * 2 ^ (ey - e)))
    as B.
  assert (P : 0 < 2 ^ (ey - e)) by (apply Z.pow_pos_nonneg; lia).
  destruct ((Zpos mx * 2 ^ (ex - e)) mod (Zpos my * 2 ^ (ey - e)))
    as [|r|r]; [left; reflexivity| |left; reflexivity].
  right.
  pose proof (shl_align_spec r e (fexp prec emax (Zpos (digits2_pos r) + e)))
    as [E M].
  destruct (shl_align r e (fexp prec emax (Zpos (digits2_pos r) + e)))
    as [mz ez].
  simpl fst in *. simpl snd in *. exists mz, ez. split; [reflexivity|].
  rewrite M.
  assert (R : Zpos r < Zpos my * 2 ^ (ey - e)) by (apply B; lia).
  set (k := Z.min ez ey).
  replace (ey - k) with ((ey - e) + (e - k)) by lia.
  rewrite Z.pow_add_r, Z.mul_assoc by lia.
  rewrite <- Z.mul_assoc, <- Z.pow_add_r by lia.
  replace (e - Z.min e (fexp prec emax (Zpos (digits2_pos r) + e)) + (ez - k))
    with (e - k) by lia.
  apply Z.mul_lt_mono_pos_r; [apply Z.pow_pos_nonneg; lia|exact R].
Qed.

Section RemainderFacts.

Context {host : Host}.

Lemma float_rem_sign (vx wx : float64) :
  is_zero wx = false ->
  exists r : float64,
    float_rem vx wx = Returns (VFloat r)
    /\ (is_nan r = true \/ signbit r = signbit wx).
Proof.
  intros Z. unfold float_rem. rewrite Z.
  destruct wx as [sy|sy| |sy my ey]; [discriminate Z| | |].
  - destruct vx as [sx|sx| |sx mx ex]; destruct sy; try destruct sx;
      simpl; eauto.
  - destruct vx as [sx|sx| |sx mx ex]; simpl; eauto.
  - destruct vx as [sx|sx| |sx mx ex];
      try (destruct sy; simpl; eauto; fail).
    destruct (fmod_finite sx sy mx my ex ey) as [F|[m [e [F L]]]]; rewrite F.
    + simpl. eauto.
    + cbn [is_zero is_negative].
      destruct (Bool.eqb sx sy) eqn:Q.
      * apply Bool.eqb_prop in Q. subst sy. rewrite xorb_nilpotent. eauto.
      * assert (X : sx = negb sy) by (destruct sx, sy; try discriminate; reflexivity).
        subst sx. replace (xorb sy (negb sy)) with true by (destruct sy; reflexivity).
        destruct (fadd_opposite sy m my e ey L) as [N S]. eauto.
Qed.

Lemma long_mod_sign (a b : Z) :
  b <> 0 -> exists v, long_mod a b = Returns v /\ takes_sign_of v (VInt b).
Proof.
  intros N. unfold long_mod.
  destruct (Z.eqb_spec b 0) as [|_]; [contradiction|].
  eexists. split; [reflexivity|]. unfold takes_sign_of. simpl.
  destruct (Z.eqb_spec (a mod b) 0) as [|M]; [auto|]. right. right.
  destruct (Z.ltb_spec b 0) as [B|B].
  - pose proof (Z.mod_neg_bound a b B). apply Z.ltb_lt. lia.
  - pose proof (Z.mod_pos_bound a b). apply Z.ltb_ge. lia.
Qed.

(** [%] on two numbers, the second of which is not zero: the result is a
    zero, a NaN, or has the sign of the divisor, unless an int next to a
    float is too large for a float. *)
Lemma operator_mod_sign (vl vr : value) :
  as_real vl <> None -> as_real vr <> None -> is_zero_value vr = false ->
  if conversion_overflows vl vr
  then exists msg : string, operator_mod vl vr = Raises (Exn OverflowError msg)
  else exists v : value, operator_mod vl vr = Returns v /\ takes_sign_of v vr.
Proof.
  intros Rl Rr NZ.
  assert (G : forall x y, is_zero y = false -> signbit y = negative vr ->
                exists v, float_rem x y = Returns v /\ takes_sign_of v vr).
  { intros x y Zy Sy. destruct (float_rem_sign x y Zy) as [r [E [N|S]]];
      exists (VFloat r); (split; [exact E|]); unfold takes_sign_of; simpl; auto.
    right. right. congruence. }
  assert (S : forall n : Z, n <> 0 ->
                is_zero (float_of_Z n) = false
                /\ signbit (float_of_Z n) = (n <? 0)).
  { intros n N. split; [apply float_of_Z_nonzero, N|].
    apply binary_normalize_sign, N. }
  unfold operator_mod, conversion_overflows.
  destruct vl as [bl|m|x|? ?]; try (simpl in Rl; congruence);
    destruct vr as [br|n|y|? ?]; try (simpl in Rr; congruence);
    simpl in NZ; try (destruct br; [clear NZ|discriminate NZ]);
    try apply Z.eqb_neq in NZ;
    unfold binary_op; simpl as_real; cbv iota beta.
  - apply long_mod_sign. discriminate.
  - apply long_mod_sign, NZ.
  - simpl. replace (is_inf (float_of_Z (Z.b2z bl))) with false
      by (destruct bl; reflexivity).
    simpl. apply G; auto.
  - apply long_mod_sign. discriminate.
  - apply long_mod_sign, NZ.
  - simpl. unfold raise_fault.
    destruct (is_inf (float_of_Z m)); simpl; [eauto|]. apply G; auto.
  - simpl. apply G; reflexivity.
  - simpl. unfold raise_fault. destruct (S n NZ) as [Z0 S0].
    destruct (is_inf (float_of_Z n)); simpl; [eauto|]. apply G; auto.
  - simpl. apply G; auto.
Qed.

(** [/] on two numbers, the second of which is not zero. *)
Lemma operator_truediv_quotient (vl vr : value) :
  as_real vl <> None -> as_real vr <> None -> is_zero_value vr = false ->
  match true_quotient vl vr with
  | Some q => operator_truediv vl vr = Returns (VFloat q)
  | None => exists msg : string,
      operator_truediv vl vr = Raises (Exn OverflowError msg)
  end.
Proof.
  intros Rl Rr NZ.
  unfold operator_truediv, true_quotient, conversion_overflows.
  destruct vl as [bl|m|x|? ?]; try (simpl in Rl; congruence);
    destruct vr as [br|n|y|? ?]; try (simpl in Rr; congruence);
    simpl in NZ; try (destruct br; [clear NZ|discriminate NZ]);
    try (pose proof (float_of_Z_nonzero n (proj1 (Z.eqb_neq n 0) NZ)) as F);
    unfold binary_op; simpl as_real; cbv iota beta;
    unfold long_true_divide, float_div, raise_fault;
    try rewrite NZ; simpl Z.eqb; cbv iota.
  - destruct bl; simpl; eauto.
  - destruct (is_inf (round_quotient (Z.b2z bl) n)); eauto.
  - simpl. replace (is_inf (float_of_Z (Z.b2z bl))) with false
      by (destruct bl; reflexivity).
    simpl. rewrite NZ. reflexivity.
  - destruct (is_inf (round_quotient m 1)); eauto.
  - destruct (is_inf (round_quotient m n)); eauto.
  - simpl. destruct (is_inf (float_of_Z m)); simpl; [eauto|].
    rewrite NZ. reflexivity.
  - simpl. reflexivity.
  - simpl. destruct (is_inf (float_of_Z n)); simpl; [eauto|].
    rewrite F. reflexivity.
  - simpl. rewrite NZ. reflexivity.
Qed.

End RemainderFacts.

(** C5 (as amended).  For all numbers [a] and [b] with [b] not zero, the
    result of [a % b] has the sign of the divisor [b], or is a zero, or,
    for an infinite float [a], a NaN; when an int next to a float is
    beyond the range of the doubles, the evaluation raises
    InvalidExpression. *)
Theorem remainder_takes_sign_of_divisor {host : Host}
    (s : string) (l r : expr) (vl vr : value) :
  ast_parse s = Returns (BinOp l Mod r) ->
  _eval_node l = Returns vl ->
  _eval_node r = Returns vr ->
  as_real vl <> None ->
  as_real vr <> None ->
  is_zero_value vr = false ->
  if conversion_overflows vl vr
  then eval s = Raises InvalidExpression
  else exists v : value, eval s = Returns v /\ takes_sign_of v vr.
Proof.
  intros P L R Rl Rr NZ.
  pose proof (operator_mod_sign vl vr Rl Rr NZ) as M.
  rewrite (eval_parsed s _ P). simpl. rewrite L, R. simpl.
  destruct (conversion_overflows vl vr).
  - destruct M as [msg M]. rewrite M. reflexivity.
  - destruct M as [v [M G]]. rewrite M. exists v. split; [reflexivity|exact G].
Qed.

Lemma remainder_takes_sign_of_divisor_witness :
  exists v : value,
    @eval fragment_host "-7%3" = Returns v /\ takes_sign_of v (VInt 3).
Proof.
  apply (@remainder_takes_sign_of_divisor fragment_host "-7%3"
           (UnaryOp USub (Constant (CInt 7))) (Constant (CInt 3))
           (VInt (-7)) (VInt 3));
    try reflexivity; discriminate.
Defined.

(** C5 as stated fails: the dividend of ["-7%3"] is negative and the
    result is 2. *)
Lemma remainder_of_negative_dividend :
  ~ (forall host : Host,
       exists v : value,
         eval "-7%3" = Returns v
         /\ (negative v = true \/ is_zero_value v = true)).
Proof.
  intros H. destruct (H fragment_host) as [v [E S]].
  vm_compute in E. inversion E. subst v. destruct S; discriminate.
Qed.

Example eval_remainders {host : Host} :
  eval "-7%3" = Returns (VInt 2)
  /\ eval "7%-3" = Returns (VInt (-2))
  /\ eval "7%3" = Returns (VInt 1)
  /\ eval "-7.5%2" = Returns (VFloat (S754_finite false 4503599627370496 (-53)))
  /\ eval "7.5%-2" = Returns (VFloat (S754_finite true 4503599627370496 (-53))).
Proof.
  repeat split.
  - parse_input "-7%3". reflexivity.
  - parse_input "7%-3". reflexivity.
  - parse_input "7%3". reflexivity.
  - parse_input "-7.5%2". reflexivity.
  - parse_input "7.5%-2". reflexivity.
Qed.




(* ================================================================= *)
(** * The text of a result, evaluated again

    The decimal text of an int is read back as that int. *)

Definition uint_chars (d : Decimal.uint) : list ascii :=
  list_ascii_of_string (NilEmpty.string_of_uint d).

Lemma uint_chars_digits (d : Decimal.uint) :
  forallb is_digit (uint_chars d) = true.
Proof. induction d; simpl; auto. Qed.

Lemma span_all (p : ascii -> bool) (l : list ascii) :
  forallb p l = true -> span p l = (l, []).
Proof.
  induction l as [|c l IH]; simpl; [reflexivity|].
  intros H. apply andb_prop in H. destruct H as [H1 H2].
  rewrite H1, (IH H2). reflexivity.
Qed.

Lemma digits_of_uint_acc (d : Decimal.uint) (acc : positive) :
  fold_left (fun a c => 10 * a + digit_value c) (uint_chars d) (Zpos acc)
  = Zpos (Pos.of_uint_acc d acc).
Proof.
  revert acc. unfold uint_chars.
  induction d as [|d IH|d IH|d IH|d IH|d IH|d IH|d IH|d IH|d IH|d IH];
    intros acc;
    cbn [NilEmpty.string_of_uint list_ascii_of_string fold_left Pos.of_uint_acc];
    [reflexivity|..]; rewrite <- IH; f_equal;
    match goal with
    | |- context [digit_value ?c] =>
        let v := eval vm_compute in (digit_value c) in
        change (digit_value c) with v
    end; lia.
Qed.

Lemma digits_of_uint (d : Decimal.uint) :
  digits_to_Z (uint_chars d) = Z.of_N (Pos.of_uint d).
Proof.
  unfold digits_to_Z, uint_chars.
  induction d as [|d IH|d IH|d IH|d IH|d IH|d IH|d IH|d IH|d IH|d IH];
    cbn [NilEmpty.string_of_uint list_ascii_of_string fold_left Pos.of_uint];
    [reflexivity|exact IH|..];
    exact (digits_of_uint_acc d _).
Qed.

Lemma unorm_leading_zero (d d' : Decimal.uint) :
  Decimal.unorm d = Decimal.D0 d' -> d' = Decimal.Nil.
Proof.
  induction d; simpl; intros H; try discriminate H; auto.
  inversion H. reflexivity.
Qed.

Lemma to_uint_head (p : positive) :
  exists (c : ascii) (cs : list ascii),
    uint_chars (Pos.to_uint p) = c :: cs
    /\ is_digit c = true /\ Ascii.eqb "0" c = false.
Proof.
  pose proof (DecimalPos.Unsigned.to_of (Pos.to_uint p)) as N.
  rewrite DecimalPos.Unsigned.of_to in N. simpl in N.
  pose proof (DecimalPos.Unsigned.to_uint_nonzero p) as Z0.
  pose proof (DecimalPos.Unsigned.to_uint_nonnil p) as Z1.
  unfold uint_chars.
  destruct (Pos.to_uint p) as [|d|d|d|d|d|d|d|d|d|d]; try congruence;
    simpl; try (do 2 eexists; repeat split; fail).
  exfalso. symmetry in N. apply unorm_leading_zero in N. subst d.
  apply Z0. reflexivity.
Qed.

Lemma string_of_uint_nonnil (d : Decimal.uint) :
  d <> Decimal.Nil -> NilZero.string_of_uint d = NilEmpty.string_of_uint d.
Proof. destruct d; congruence || reflexivity. Qed.

(** The text of a positive int is the literal of that int. *)
Lemma positive_literal (p : positive) :
  number_literal (NilZero.string_of_uint (Pos.to_uint p)) (CInt (Zpos p)).
Proof.
  rewrite string_of_uint_nonnil by apply DecimalPos.Unsigned.to_uint_nonnil.
  destruct (to_uint_head p) as [c [cs [E [D Z0]]]].
  exists c, cs. split; [exact E|].
  unfold lex_token. rewrite D. unfold lex_number.
  pose proof (uint_chars_digits (Pos.to_uint p)) as A.
  pose proof (digits_of_uint (Pos.to_uint p)) as V.
  rewrite E in A, V. rewrite (span_all _ _ A).
  cbn [starts_with clean_end negb]. rewrite Z0. cbn [andb].
  rewrite V, DecimalPos.Unsigned.of_to. reflexivity.
Qed.

Lemma tokenize_literal (a : string) (c : constant) :
  number_literal a c -> tokenize a = Lexed [NUMBER c].
Proof.
  intros A. destruct (literal_starts a c A) as [ch [cs [E [L D]]]].
  destruct (digit_is_plain ch D) as (B & H & _).
  unfold tokenize. rewrite E. simpl starts_with. rewrite B.
  simpl List.length. rewrite (lex_all_token _ ch cs [] (NUMBER c) B H L).
  destruct (List.length cs); reflexivity.
Qed.

Lemma tokenize_negative_literal (a : string) (c : constant) :
  number_literal a c -> tokenize (String "-" a) = Lexed [OP MINUS; NUMBER c].
Proof.
  intros A. destruct (literal_starts a c A) as [ch [cs [E [L D]]]].
  destruct (digit_is_plain ch D) as (B & H & _).
  unfold tokenize. simpl list_ascii_of_string. rewrite E.
  simpl starts_with. cbv iota. simpl List.length.
  rewrite (lex_all_token _ "-" (ch :: cs) (ch :: cs) (OP MINUS))
    by reflexivity.
  rewrite (lex_all_token _ ch cs [] (NUMBER c) B H L).
  destruct (List.length cs); reflexivity.
Qed.

Lemma str_of_int (n : Z) :
  forall host : Host,
  match n with
  | Z0 => str (VInt n) = "0"
  | Zpos p => str (VInt n) = NilZero.string_of_uint (Pos.to_uint p)
  | Zneg p => str (VInt n) = String "-" (NilZero.string_of_uint (Pos.to_uint p))
  end.
Proof. intros host. destruct n; reflexivity. Qed.


(* ================================================================= *)
(** * More of the evaluator *)

Section IntegerFacts.
Context {host : Host}.

Lemma eval_node_int (e : expr) (z : Z) :
  int_value e = Some z ->
  exists v : value, _eval_node e = Returns v /\ as_real v = Some (RInt z).
Proof.
  revert z.
  induction e as [l IHl op r IHr|op o IHo|c| | | | |]; simpl; intros z H;
    try discriminate.
  - destruct (int_value l) as [a|]; [|discriminate].
    destruct (int_value r) as [b|]; [|discriminate].
    destruct (IHl a eq_refl) as [vl [El Rl]].
    destruct (IHr b eq_refl) as [vr [Er Rr]].
    destruct op; try discriminate; simpl; rewrite El, Er; simpl;
      unfold operator_add, operator_sub, operator_mul, operator_mod,
        operator_pow, binary_op, long_mod, long_pow; rewrite Rl, Rr.
    + inversion H. eauto.
    + inversion H. eauto.
    + inversion H. eauto.
    + destruct (b =? 0); [discriminate|]. inversion H. eauto.
    + destruct (b <? 0); [discriminate|]. inversion H. eauto.
  - destruct op; try discriminate.
    + destruct (IHo z H) as [v [E R]]. simpl. rewrite E. simpl.
      destruct v as [b|n|x|? ?]; simpl in *; try discriminate; eauto.
    + destruct (int_value o) as [a|]; [|discriminate]. inversion H.
      destruct (IHo a eq_refl) as [v [E R]]. simpl. rewrite E. simpl.
      destruct v as [b|n|x|? ?]; simpl in *; inversion R; eauto.
  - destruct c; try discriminate; inversion H; simpl; eauto.
Qed.

End IntegerFacts.

(** X2.  Integer arithmetic is exact and stays with the ints: an
    expression of ints and bools with [+ - *], [%] by a divisor that is
    not zero, [**] with an exponent that is not negative, and signs
    evaluates to the int it denotes. *)
Theorem integer_arithmetic_is_exact {host : Host}
    (s : string) (body : expr) (z : Z) :
  ast_parse s = Returns body ->
  int_value body = Some z ->
  exists v : value, eval s = Returns v /\ as_real v = Some (RInt z).
Proof.
  intros P H. destruct (eval_node_int body z H) as [v [E R]].
  exists v. rewrite (eval_parsed s body P), E. auto.
Qed.

Lemma integer_arithmetic_is_exact_witness :
  exists v : value,
    @eval fragment_host "2**10%7-3*-4" = Returns v
    /\ as_real v = Some (RInt 14).
Proof.
  apply (@integer_arithmetic_is_exact fragment_host "2**10%7-3*-4"
           (BinOp (BinOp (BinOp (Constant (CInt 2)) Pow (Constant (CInt 10)))
                     Mod (Constant (CInt 7)))
               Sub
               (BinOp (Constant (CInt 3)) Mult
                  (UnaryOp USub (Constant (CInt 4)))))); reflexivity.
Defined.

(** X3.  Whatever the input, [eval] raises no error but its two own: the
    errors of the host (SyntaxError, OverflowError, TypeError) and the
    message of [_eval_node] never leave it. *)
Theorem eval_raises_its_two_errors {host : Host} (s : string) (e : exn) :
  eval s = Raises e -> e = DivisionByZero \/ e = InvalidExpression.
Proof.
  intros E. destruct (eval_cases s) as [[v R]|[R|R]]; rewrite R in E;
    inversion E; auto.
Qed.

Lemma eval_raises_its_two_errors_witness :
  Exn ValueError "Invalid expression" = DivisionByZero
  \/ Exn ValueError "Invalid expression" = InvalidExpression.
Proof.
  apply (@eval_raises_its_two_errors fragment_host "2**(" _). reflexivity.
Defined.

(* ================================================================= *)
(** * More of the application *)

(** ** Stripped texts *)

(** No white space at either end. *)
Definition trimmed (l : list ascii) : Prop :=
  starts_with is_space l = false /\ starts_with is_space (rev l) = false.

Lemma lstrip_head (l : list ascii) : starts_with is_space (lstrip l) = false.
Proof.
  induction l as [|c l IH]; simpl; [reflexivity|].
  destruct (is_space c) eqn:S; [exact IH|]. simpl. exact S.
Qed.

Lemma lstrip_id (l : list ascii) :
  starts_with is_space l = false -> lstrip l = l.
Proof. destruct l as [|c l]; simpl; [reflexivity|]. intros ->. reflexivity. Qed.

Lemma lstrip_suffix (l : list ascii) :
  exists sp : list ascii, l = sp ++ lstrip l.
Proof.
  induction l as [|c l [sp IH]]; simpl; [exists []; reflexivity|].
  destruct (is_space c).
  - exists (c :: sp). simpl. congruence.
  - exists []. reflexivity.
Qed.

Lemma strip_chars (s : string) :
  list_ascii_of_string (strip s)
  = rev (lstrip (rev (lstrip (list_ascii_of_string s)))).
Proof. unfold strip. apply list_ascii_of_string_of_list_ascii. Qed.

Lemma strip_trimmed (s : string) : trimmed (list_ascii_of_string (strip s)).
Proof.
  rewrite strip_chars. set (l1 := lstrip (list_ascii_of_string s)).
  split; [|rewrite rev_involutive; apply lstrip_head].
  destruct (lstrip_suffix (rev l1)) as [sp E].
  pose proof (lstrip_head (list_ascii_of_string s)) as H. fold l1 in H.
  apply (f_equal (@rev ascii)) in E. rewrite rev_involutive, rev_app_distr in E.
  destruct (rev (lstrip (rev l1))) as [|c t]; [reflexivity|].
  rewrite E in H. exact H.
Qed.

Lemma strip_id (s : string) :
  trimmed (list_ascii_of_string s) -> strip s = s.
Proof.
  intros [A B]. unfold strip.
  rewrite (lstrip_id _ A), (lstrip_id _ B), rev_involutive.
  apply string_of_list_ascii_of_string.
Qed.

Lemma strip_idempotent (s : string) : strip (strip s) = strip s.
Proof. apply strip_id, strip_trimmed. Qed.

Lemma strip_space_after (s : string) :
  trimmed (list_ascii_of_string s) -> strip (s ++ " ") = s.
Proof.
  intros [A B]. unfold strip.
  rewrite list_ascii_of_string_app. simpl list_ascii_of_string.
  destruct (list_ascii_of_string s) as [|c l] eqn:E.
  - simpl. rewrite <- (string_of_list_ascii_of_string s), E. reflexivity.
  - simpl in A. cbn [List.app lstrip]. rewrite A.
    change (c :: l ++ [" "%char]) with ((c :: l) ++ [" "%char]).
    rewrite rev_app_distr. set (r := rev (c :: l)) in *.
    change (lstrip (rev [" "%char] ++ r)) with (lstrip r).
    rewrite (lstrip_id r B). unfold r. rewrite rev_involutive, <- E.
    apply string_of_list_ascii_of_string.
Qed.

Lemma before_equals_app (s t : string) :
  equals_free s = true -> before_equals (s ++ t) = (s ++ before_equals t)%string.
Proof.
  induction s as [|c s IH]; simpl; [reflexivity|]. intros H.
  apply andb_prop in H. destruct H as [H1 H2].
  apply negb_true_iff in H1. rewrite H1, (IH H2). reflexivity.
Qed.

Lemma string_app_assoc (a b c : string) :
  ((a ++ b) ++ c = a ++ (b ++ c))%string.
Proof. induction a as [|x a IH]; simpl; [reflexivity|]. now rewrite IH. Qed.

(** What [_on_history_select] makes of the entry of an evaluation. *)
Lemma recall_entry (e r : string) :
  equals_free e = true -> trimmed (list_ascii_of_string e) ->
  strip (before_equals (e ++ " = " ++ r)) = e.
Proof.
  intros F T.
  replace (e ++ " = " ++ r)%string with ((e ++ " ") ++ String "=" (" " ++ r))%string
    by (rewrite string_app_assoc; reflexivity).
  rewrite before_equals_app.
  - simpl before_equals. replace ((e ++ " ") ++ "")%string with (e ++ " ")%string.
    + apply strip_space_after, T.
    + induction (e ++ " ")%string as [|c x IH]; simpl; [reflexivity|].
      now rewrite <- IH.
  - clear T. induction e as [|c e IH]; simpl in *; [reflexivity|].
    apply andb_prop in F. destruct F as [F1 F2]. rewrite F1, (IH F2). reflexivity.
Qed.

Lemma drop_last_app (s : string) (c : ascii) :
  drop_last (s ++ String c "") = s.
Proof.
  unfold drop_last. rewrite list_ascii_of_string_app. simpl.
  rewrite removelast_last. apply string_of_list_ascii_of_string.
Qed.

Section MoreApplicationFacts.

Context {host : Host}.

Lemma set_var_var (st : app) : set_var (var st) st = st.
Proof. destruct st. reflexivity. Qed.

Lemma add_history_newest (item : string) (st : app) :
  nth_error (history (_add_history item st))
    (List.length (history (_add_history item st)) - 1)
  = Some item.
Proof.
  unfold _add_history.
  destruct (Nat.ltb 50 (List.length (history st ++ [item]))) eqn:B; simpl.
  - destruct (history st) as [|x h].
    + discriminate B.
    + simpl. rewrite nth_error_app2; rewrite length_app; simpl;
        [|lia]. replace (List.length h + 1 - 1 - List.length h)%nat with 0%nat by lia.
      reflexivity.
  - rewrite nth_error_app2; rewrite length_app; simpl; [|lia].
    replace (List.length (history st) + 1 - 1 - List.length (history st))%nat
      with 0%nat by lia.
    reflexivity.
Qed.

Lemma add_history_entries (P : string -> Prop) (item : string) (st : app) :
  Forall P (history st) -> P item -> Forall P (history (_add_history item st)).
Proof.
  intros H I. unfold _add_history.
  assert (A : Forall P (history st ++ [item])).
  { apply Forall_app. auto. }
  destruct (Nat.ltb 50 (List.length (history st ++ [item]))); simpl; [|exact A].
  destruct (history st ++ [item]); [constructor|]. inversion A. assumption.
Qed.

(** What holds of every state the application reaches. *)
Definition reachable_ok (st : app) : Prop :=
  history_list st = history st
  /\ Forall (fun item => exists text, successful text item) (history st)
  /\ Forall (fun d => d = math_error \/ d = input_error) (dialogs st).

Lemma step_reachable_ok (st : app) (a : action) :
  reachable_ok st -> reachable_ok (step st a).
Proof.
  intros (W & H & D).
  destruct a as [s| | | | |sel|c|text]; simpl;
    try (repeat split; assumption).
  - unfold evaluate.
    destruct (String.eqb_spec (strip (var st)) "") as [Z|N];
      [repeat split; assumption|].
    destruct (eval (strip (var st))) as [v|e] eqn:E.
    + destruct (add_history_var (strip (var st) ++ " = " ++ str v) st) as [_ Dv].
      repeat split; unfold set_var; cbn [history_list history dialogs].
      * apply add_history_widget, W.
      * apply add_history_entries; [exact H|].
        exists (var st). split; [exact N|]. eauto.
      * rewrite Dv. exact D.
    + pose proof (evaluate_failure st e N E) as F. unfold evaluate in F.
      destruct (String.eqb_spec (strip (var st)) "") as [Z|_]; [contradiction|].
      rewrite E in F.
      destruct F as [[_ F]|[_ F]]; rewrite F; repeat split; simpl; auto;
        apply Forall_app; split; auto; repeat constructor;
        unfold math_error, input_error; auto.
  - unfold _on_history_select. destruct sel as [|idx sel];
      [repeat split; assumption|].
    destruct (nth_error (history st) idx); repeat split; assumption.
Qed.

Lemma run_reachable_ok (actions : list action) (st : app) :
  reachable_ok st -> reachable_ok (run actions st).
Proof.
  revert st. induction actions as [|a actions IH]; intros st H; simpl.
  - exact H.
  - apply IH, step_reachable_ok, H.
Qed.

Lemma initial_reachable_ok : reachable_ok initial.
Proof. repeat split; constructor. Qed.

End MoreApplicationFacts.


(** X5.  Whatever the user does, the list box shows the history row by
    row, so that a selected row is an index of the history, and every
    entry of the history is the text of a successful evaluation with its
    result: the expression as stripped, [" = "], and [str] of the value
    [eval] returned for it. *)
Theorem history_records_successful_evaluations
    {host : Host} (actions : list action) :
  history_list (run actions initial) = history (run actions initial)
  /\ (forall idx : nat,
        (idx < List.length (history_list (run actions initial)))%nat ->
        nth_error (history (run actions initial)) idx <> None)
  /\ Forall (fun item => exists text, successful text item)
       (history (run actions initial)).
Proof.
  destruct (run_reachable_ok actions initial initial_reachable_ok)
    as (W & H & _).
  repeat split; try assumption.
  intros idx L. rewrite W in L. apply nth_error_Some. exact L.
Qed.



(** X7.  Backspace undoes the insertion of one character, and as many
    backspaces as a text has characters undo its insertion; on an empty
    display backspace changes nothing. *)
Theorem backspace_undoes_insert (st : app) :
  (forall c : ascii, backspace (insert (String c "") st) = st)
  /\ (forall s : string,
        Nat.iter (String.length s) backspace (insert s st) = st)
  /\ (var st = "" -> backspace st = st).
Proof.
  assert (B : forall (t : app) (c : ascii),
            backspace (insert (String c "") t) = t).
  { intros t c. unfold backspace, insert. simpl.
    rewrite drop_last_app. destruct t. reflexivity. }
  repeat split.
  - apply B.
  - intros s. revert st.
    induction s as [|c s IH]; intros st.
    + simpl. unfold insert. destruct st as [t h l d]. simpl.
      replace (t ++ "")%string with t; [reflexivity|].
      induction t as [|x t IHt]; simpl; [reflexivity|]. now rewrite <- IHt.
    + replace (insert (String c s) st)
        with (insert s (insert (String c "") st)).
      * simpl String.length. rewrite Nat.iter_succ, IH. apply B.
      * unfold insert. simpl. rewrite string_app_assoc. reflexivity.
  - intros E. unfold backspace. rewrite E.
    change (drop_last "") with "". rewrite <- E. apply set_var_var.
Qed.

Lemma digit_not_space (c : ascii) : is_digit c = true -> is_space c = false.
Proof.
  unfold is_digit, char_in, is_space. set (n := nat_of_ascii c).
  intros H. apply andb_prop in H. destruct H as [H1 H2].
  apply Nat.leb_le in H1, H2.
  repeat (apply orb_false_iff; split);
    try (apply andb_false_iff;
         destruct (Nat.leb_spec 9 n), (Nat.leb_spec n 13),
           (Nat.leb_spec 28 n), (Nat.leb_spec n 32); auto; lia);
    apply Nat.eqb_neq; lia.
Qed.

Lemma digits_trimmed (l : list ascii) :
  forallb is_digit l = true -> trimmed l.
Proof.
  intros H.
  assert (G : forall l', forallb is_digit l' = true ->
                starts_with is_space l' = false).
  { intros [|c l'] D; [reflexivity|]. simpl in *.
    apply andb_prop in D. apply digit_not_space, D. }
  split; apply G; [exact H|].
  apply forallb_forall. intros c I. apply in_rev in I.
  revert c I. apply forallb_forall. exact H.
Qed.

Lemma negative_digits_trimmed (c : ascii) (l : list ascii) :
  forallb is_digit (c :: l) = true -> trimmed ("-"%char :: c :: l).
Proof.
  intros H. split; [reflexivity|].
  destruct (digits_trimmed (c :: l) H) as [_ R].
  change ("-"%char :: c :: l) with (["-"%char] ++ (c :: l)).
  rewrite rev_app_distr.
  destruct (rev (c :: l)) as [|x r] eqn:E; [|exact R].
  apply (f_equal (@List.length ascii)) in E. rewrite length_rev in E.
  discriminate E.
Qed.

Section TextFacts.

Context {host : Host}.

(** The text of an int or a bool: not empty, no white space around it, and
    evaluated to that int or bool. *)
Lemma str_int_text (v : value) :
  is_int v = true ->
  str v <> "" /\ strip (str v) = str v /\ eval (str v) = Returns v.
Proof.
  destruct v as [b|n|x|? ?]; try discriminate; intros _.
  - destruct b; simpl str; (split; [discriminate|]); (split; [reflexivity|]).
    + parse_input "True". reflexivity.
    + parse_input "False". reflexivity.
  - pose proof (str_of_int n host) as S.
    destruct n as [|p|p]; rewrite S.
    + split; [discriminate|]. split; [reflexivity|].
      parse_input "0". reflexivity.
    + pose proof (positive_literal p) as L.
      destruct (to_uint_head p) as [c [cs [E _]]].
      pose proof (uint_chars_digits (Pos.to_uint p)) as D.
      rewrite string_of_uint_nonnil in * by apply DecimalPos.Unsigned.to_uint_nonnil.
      unfold uint_chars in *. repeat split.
      * intros Z0. rewrite Z0 in E. discriminate E.
      * apply strip_id, digits_trimmed, D.
      * pose proof (ast_parse_fragment
                      (NilEmpty.string_of_uint (Pos.to_uint p))) as P.
        unfold parse_fragment in P. rewrite (tokenize_literal _ _ L) in P.
        rewrite (eval_parsed _ _ P). reflexivity.
    + pose proof (positive_literal p) as L.
      destruct (to_uint_head p) as [c [cs [E _]]].
      pose proof (uint_chars_digits (Pos.to_uint p)) as D.
      rewrite string_of_uint_nonnil in * by apply DecimalPos.Unsigned.to_uint_nonnil.
      unfold uint_chars in *. repeat split.
      * discriminate.
      * apply strip_id. simpl list_ascii_of_string. rewrite E in *.
        apply negative_digits_trimmed, D.
      * pose proof (ast_parse_fragment
                      (String "-" (NilEmpty.string_of_uint (Pos.to_uint p)))) as P.
        unfold parse_fragment in P.
        rewrite (tokenize_negative_literal _ _ L) in P.
        rewrite (eval_parsed _ _ P). reflexivity.
Qed.

Lemma eval_literal_by_zero (a : string) (c : constant) :
  number_literal a c ->
  eval (a ++ "/0") = Raises DivisionByZero
  /\ eval (a ++ "%0") = Raises DivisionByZero.
Proof.
  intros A.
  assert (V : exists v, _eval_node (Constant c) = Returns v
                        /\ divides_by_zero v (VInt 0) = true).
  { destruct (literal_constant a c A) as [[n ->]|[x ->]]; eexists; split;
      reflexivity. }
  destruct V as [v [Ev Zv]]. split.
  - apply (eval_zero_divisor _ (Constant c) (Constant (CInt 0)) Div v (VInt 0));
      auto.
    apply (parse_operation a "0" c (CInt 0) "/" SLASH Div A zero_literal). auto.
  - apply (eval_zero_divisor _ (Constant c) (Constant (CInt 0)) Mod v (VInt 0));
      auto.
    apply (parse_operation a "0" c (CInt 0) "%" PERCENT Mod A zero_literal). auto.
Qed.

End TextFacts.

(** X8.  With a number literal divided by the literal 0 in the display,
    by [/] or by [%] and with or without white space around the text,
    [evaluate] shows the dialog "Math Error" with the message of the
    division by zero, once, and changes nothing else. *)
Theorem division_by_zero_shows_math_error {host : Host}
    (a : string) (c : constant) (st : app) :
  number_literal a c ->
  strip (var st) = (a ++ "/0")%string \/ strip (var st) = (a ++ "%0")%string ->
  evaluate st = showerror "Math Error" "Division by zero is not allowed." st.
Proof.
  intros A S. destruct (eval_literal_by_zero a c A) as [D M].
  assert (E : eval (strip (var st)) = Raises DivisionByZero)
    by (destruct S as [-> | ->]; assumption).
  assert (N : strip (var st) <> "").
  { destruct A as [ch [cs [L _]]].
    destruct S as [-> | ->]; destruct a; try discriminate L; discriminate. }
  destruct (evaluate_failure st _ N E) as [[_ F]|[X _]]; [exact F|].
  discriminate X.
Qed.

Lemma division_by_zero_shows_math_error_witness :
  @evaluate fragment_host (App " 12/0 " [] [] [])
  = showerror "Math Error" "Division by zero is not allowed."
      (App " 12/0 " [] [] []).
Proof.
  apply (@division_by_zero_shows_math_error fragment_host "12" (CInt 12)).
  - exists "1"%char, ["2"%char]. split; reflexivity.
  - left. reflexivity.
Defined.



(* ================================================================= *)
(** * The buttons and the keys *)

Lemma string_app_nil (s : string) : (s ++ "")%string = s.
Proof. induction s as [|c s IH]; simpl; [reflexivity|]. now rewrite IH. Qed.

Lemma insert_insert (s t : string) (st : app) :
  insert t (insert s st) = insert (s ++ t) st.
Proof. unfold insert. simpl. rewrite string_app_assoc. reflexivity. Qed.

(** X10.  A button made without a command inserts its label and touches
    nothing else; clicks on such buttons, in any number, append their
    labels in order, as one insertion of the whole text would. *)
Theorem label_buttons_append_their_labels
    (labels : list (string * nat * nat * nat)) (st : app) :
  clicks (map (fun '(label, r, c, span) => _make_button label r c span None)
            labels) st
  = insert (String.concat "" (map (fun '(label, _, _, _) => label) labels)) st.
Proof.
  revert st. induction labels as [|[[[label r] c] span] labels IH]; intros st.
  - unfold insert. simpl. rewrite string_app_nil. destruct st. reflexivity.
  - simpl map. unfold clicks in *. simpl fold_left. rewrite IH.
    rewrite insert_insert. f_equal.
    destruct labels as [|[[[l2 r2] c2] s2] labels]; simpl.
    + rewrite string_app_nil. reflexivity.
    + reflexivity.
Qed.

Definition cell_eq_dec (x y : nat * nat) : {x = y} + {x <> y}.
Proof. decide equality; apply Nat.eq_dec. Defined.

(** X11.  The buttons of [_build_widgets] tile the grid of six rows and
    four columns: no two of them share a cell, and the cells they cover
    are those of the grid.  Four of them run a command: "AC" [clear_all],
    "C" [clear_entry], the backspace button [backspace] and "="
    [evaluate]; every other one inserts its own label. *)
Theorem buttons_tile_the_grid {host : Host} :
  NoDup (flat_map cells _build_widgets)
  /\ (forall r c : nat,
        In (r, c) (flat_map cells _build_widgets)
        <-> (r < grid_rows)%nat /\ (c < grid_columns)%nat)
  /\ Forall
       (fun b =>
          forall st : app,
            command b st
            = if String.eqb (text b) "AC" then clear_all st
              else if String.eqb (text b) "C" then clear_entry st
              else if String.eqb (text b) erase_to_the_left then backspace st
              else if String.eqb (text b) "=" then evaluate st
              else insert (text b) st)
       _build_widgets.
Proof.
  split; [|split].
  - assert (E : nodup cell_eq_dec (flat_map cells _build_widgets)
                = flat_map cells _build_widgets) by (vm_compute; reflexivity).
    rewrite <- E. apply NoDup_nodup.
  - intros r c. unfold grid_rows, grid_columns. split.
    + intros I. vm_compute in I.
      repeat (destruct I as [I|I]; [inversion I; lia|]). contradiction.
    + intros [R C].
      do 6 (destruct r as [|r]; [do 4 (destruct c as [|c];
              [vm_compute; repeat (first [left; reflexivity|right])|]); lia|]).
      lia.
  - repeat constructor.
Qed.

(** X12.  The callbacks of the keys do what the buttons do: the callback
    [_bind_keys] binds to the key of a character of
    [0123456789.+-*/()%], on an event with that character as its text,
    does what a click on the button labelled with it does; the callbacks
    of Return and of the Enter of the keypad do what "=" does, that of
    BackSpace what the backspace button does, that of Escape what "AC"
    does; the callback of [*], run twice, does what "**" does. *)
Theorem key_callbacks_act_as_buttons {host : Host} :
  Forall
    (fun ch =>
       exists (f : event -> app -> app) (b : button),
         callback (key_press ch) = Some f
         /\ button_labelled (String ch "") = Some b
         /\ forall st : app, f (Event (String ch "")) st = command b st)
    (list_ascii_of_string key_characters)
  /\ (forall (sequence label : string),
        In (sequence, label)
          [("<Return>", "="); ("<KP_Enter>", "=");
           ("<BackSpace>", erase_to_the_left); ("<Escape>", "AC")] ->
        exists (f : event -> app -> app) (b : button),
          callback sequence = Some f
          /\ button_labelled label = Some b
          /\ forall (e : event) (st : app), f e st = command b st)
  /\ (exists (f : event -> app -> app) (b : button),
        callback (key_press "*") = Some f
        /\ button_labelled "**" = Some b
        /\ forall st : app,
             f (Event "*") (f (Event "*") st) = command b st).
Proof.
  split; [|split].
  - repeat constructor; do 2 eexists; (split; [reflexivity|]);
      (split; [reflexivity|]); intros st; reflexivity.
  - intros sequence label I. simpl in I.
    repeat (destruct I as [I|I];
            [inversion I; subst; do 2 eexists; (split; [reflexivity|]);
             (split; [reflexivity|]); intros e st; reflexivity|]).
    contradiction.
  - do 2 eexists. split; [reflexivity|]. split; [reflexivity|]. intros st.
    change (insert "*" (insert "*" st) = insert "**" st).
    apply insert_insert.
Qed.
